(** * Debrid cache checks and identifier completion

    A shallow embedding of the debrid services module (the RealDebrid,
    Torbox and AllDebrid clients with [checkAllDebridCaches]) and of
    [lib/id-converter.cjs] ([imdbToTmdb], [tmdbToImdb], [completeIds]).

    The JavaScript is modelled as it is written:
    - parsed JSON and the objects the code builds are values of [JS.value];
    - the [results] object of a [checkCache] call is a [gmap] from the
      lowercased hash to the entry written for it;
    - a method is a computation in the monad [M]: it reads the remote
      answers from a [world], threads [state] (the [results] object and the
      trace of requests and delays) and either returns or throws;
    - [try]/[catch] is [try_catch]; a throw keeps the writes made so far,
      as a mutated JS object does;
    - [console.log]/[console.error] lines are narration and are left out. *)

From Stdlib Require Import ZArith Ascii.
From stdpp Require Import base list strings gmap pretty.

#[local] Set Warnings "-register-all".

Local Open Scope string_scope.
Local Open Scope list_scope.
Local Open Scope Z_scope.

(** ** JavaScript values and the operators the sources use *)
Module JS.

(** JSON numbers of these payloads are identifiers, counts and status
    codes: integers, kept as [Z]. *)
Inductive value : Type :=
  | VUndef
  | VNull
  | VBool (b : bool)
  | VNum (n : Z)
  | VStr (s : string)
  | VArr (items : list value)
  | VObj (props : list (string * value)).

(** What a computation ends with: a value, or a thrown error. *)
Inductive exn : Type :=
  | TypeError
  | SyntaxError
  | FetchError (message : string)
  | Error (message : string).

Inductive res (A : Type) : Type :=
  | Ok (a : A)
  | Throw (e : exn).
Arguments Ok {A} a.
Arguments Throw {A} e.

(** [!!v] *)
Definition truthy (v : value) : bool :=
  match v with
  | VUndef | VNull => false
  | VBool b => b
  | VNum n => negb (n =? 0)
  | VStr s => negb (String.eqb s "")
  | VArr _ | VObj _ => true
  end.

(** [a === b] against a primitive on the right, as the sources use it
    ([=== true], [=== 'success', === 'series']). *)
Definition strict_eq_bool (v : value) (b : bool) : bool :=
  match v with VBool b' => Bool.eqb b' b | _ => false end.

Definition strict_eq_str (v : value) (s : string) : bool :=
  match v with VStr s' => String.eqb s' s | _ => false end.

(** Own property of an object given by its members in source order: as
    in [JSON.parse], a key written twice has its last value. *)
Definition own (props : list (string * value)) (k : string) : value :=
  foldl (fun found member => if String.eqb member.1 k then member.2 else found)
        VUndef props.

(** A canonical array index: ["0"], or digits without a leading zero. *)
Definition digit_of (a : ascii) : option nat :=
  let n := nat_of_ascii a in
  if ((48 <=? n) && (n <=? 57))%nat then Some (n - 48)%nat else None.

Fixpoint parse_digits (acc : nat) (s : string) : option nat :=
  match s with
  | EmptyString => Some acc
  | String a s' =>
      match digit_of a with
      | Some d => parse_digits (10 * acc + d) s'
      | None => None
      end
  end.

Definition array_index (k : string) : option nat :=
  match k with
  | EmptyString => None
  | String "0"%char EmptyString => Some 0%nat
  | String "0"%char _ => None
  | _ => parse_digits 0 k
  end.

Fixpoint char_at (s : string) (i : nat) : value :=
  match s, i with
  | EmptyString, _ => VUndef
  | String a _, O => VStr (String a EmptyString)
  | String _ s', S i' => char_at s' i'
  end.

(** [v[k]] and [v.k]: reading a property of [null] or [undefined] throws;
    arrays and strings answer [length] and their indices; the hashes and
    field names looked up here name no inherited method. *)
Definition get (v : value) (k : string) : res value :=
  match v with
  | VUndef | VNull => Throw TypeError
  | VBool _ | VNum _ => Ok VUndef
  | VObj props => Ok (own props k)
  | VArr items =>
      if String.eqb k "length" then Ok (VNum (Z.of_nat (length items)))
      else match array_index k with
           | Some i => Ok (nth i items VUndef)
           | None => Ok VUndef
           end
  | VStr s =>
      if String.eqb k "length" then Ok (VNum (Z.of_nat (String.length s)))
      else match array_index k with
           | Some i => Ok (char_at s i)
           | None => Ok VUndef
           end
  end.

(** [v?.k] *)
Definition get_opt (v : value) (k : string) : res value :=
  match v with
  | VUndef | VNull => Ok VUndef
  | _ => get v k
  end.

(** [a || b] with [b] already a value. *)
Definition or_else (a b : value) : value := if truthy a then a else b.

(** [String.prototype.toLowerCase] on the ASCII text of an info-hash. *)
Definition lower_ascii (a : ascii) : ascii :=
  let n := nat_of_ascii a in
  if ((65 <=? n) && (n <=? 90))%nat then ascii_of_nat (n + 32) else a.

Fixpoint toLowerCase (s : string) : string :=
  match s with
  | EmptyString => EmptyString
  | String a s' => String (lower_ascii a) (toLowerCase s')
  end.

(** [s.startsWith(p)] *)
Definition startsWith (s p : string) : bool := String.prefix p s.

(** [Array.prototype.join] *)
Definition join (sep : string) (l : list string) : string := String.concat sep l.

(** [`${n}`] for an integer. *)
Definition num_to_string (n : Z) : string := pretty n.

(** [Object.prototype.hasOwnProperty] on the members of an object. *)
Definition has_own (props : list (string * value)) (k : string) : bool :=
  existsb (fun member => String.eqb member.1 k) props.

(** [`${v}`], the ToString of a parsed value (integers below 10^21). An
    array joins its elements with [","], [null] and [undefined] elements
    giving the empty string. An object gives ["[object Object]"], unless
    it has a member named [toString]: that member is no function, and
    neither it nor the inherited [valueOf] gives a primitive, so the
    conversion throws. *)
Fixpoint to_string (v : value) : res string :=
  match v with
  | VUndef => Ok "undefined"
  | VNull => Ok "null"
  | VBool true => Ok "true"
  | VBool false => Ok "false"
  | VNum n => Ok (num_to_string n)
  | VStr s => Ok s
  | VArr items =>
      let fix go (l : list value) : res (list string) :=
        match l with
        | [] => Ok []
        | x :: l' =>
            match (match x with VUndef | VNull => Ok "" | _ => to_string x end) with
            | Throw e => Throw e
            | Ok sx =>
                match go l' with
                | Throw e => Throw e
                | Ok rest => Ok (sx :: rest)
                end
            end
        end in
      match go items with
      | Throw e => Throw e
      | Ok parts => Ok (join "," parts)
      end
  | VObj props =>
      if has_own props "toString" then Throw TypeError else Ok "[object Object]"
  end.

End JS.
Export JS.

(** ** Requests, remote answers and the effect monad *)
Module Eff.

(** What [fetch] is called with. [JsonBody v] is [JSON.stringify(v)] and
    [FormBody f x] is [`${f}=${encodeURIComponent(x)}`]; both are kept
    unserialised. *)
Inductive payload : Type :=
  | NoBody
  | JsonBody (v : value)
  | FormBody (field text : string).

Record request : Type := mkRequest {
  url : string;
  method : string;
  headers : list (string * string);
  body : payload;
  timeout : option Z
}.

(** A response: its status and what [response.json()] gives ([None] when
    the body does not parse and [json()] rejects). *)
Record response : Type := mkResponse {
  status : Z;
  json_body : option value
}.

(** [response.ok]: the status is in the range 200-299. *)
Definition ok (r : response) : bool := (200 <=? status r) && (status r <=? 299).

Inductive fetch_result : Type :=
  | Rejects (e : exn)
  | Responds (r : response).

(** The environment of a run. [net n req] is what the [n]-th [fetch] of
    the run (counted from 0) gets when it asks [req]. [ToNumber_gt0 v] is
    the runtime's [v > 0] for an operand that is a string, an array or an
    object (ToPrimitive, then StringToNumber), which is not interpreted
    here and may throw. *)
Record world : Type := mkWorld {
  net : nat -> request -> fetch_result;
  ToNumber_gt0 : value -> res bool
}.

Inductive event : Type :=
  | EvFetch (req : request)
  | EvDelay (ms : Z).

(** The state of one call: its [results] object and what it has done. *)
Record state : Type := mkState {
  results : gmap string value;
  trace : list event
}.

Definition init : state := mkState ∅ [].

(** The requests issued so far, in order. *)
Fixpoint fetches (tr : list event) : list request :=
  match tr with
  | [] => []
  | EvFetch req :: tr' => req :: fetches tr'
  | EvDelay _ :: tr' => fetches tr'
  end.

Definition M (A : Type) : Type := world -> state -> res A * state.

Definition ret {A} (a : A) : M A := fun _ s => (Ok a, s).

Definition bind {A B} (m : M A) (k : A -> M B) : M B :=
  fun w s =>
    match m w s with
    | (Ok a, s') => k a w s'
    | (Throw e, s') => (Throw e, s')
    end.

Definition throw {A} (e : exn) : M A := fun _ s => (Throw e, s).

(** [try { m } catch (error) { h error }] *)
Definition try_catch {A} (m : M A) (h : exn -> M A) : M A :=
  fun w s =>
    match m w s with
    | (Ok a, s') => (Ok a, s')
    | (Throw e, s') => h e w s'
    end.

Definition lift {A} (r : res A) : M A := fun _ s => (r, s).

Definition record (e : event) (s : state) : state :=
  mkState (results s) (trace s ++ [e]).

(** [await fetch(req)] *)
Definition fetch (req : request) : M response :=
  fun w s =>
    match net w (length (fetches (trace s))) req with
    | Rejects e => (Throw e, record (EvFetch req) s)
    | Responds r => (Ok r, record (EvFetch req) s)
    end.

(** [await response.json()] *)
Definition json (r : response) : M value :=
  match json_body r with
  | Some v => ret v
  | None => throw SyntaxError
  end.

(** [await new Promise(resolve => setTimeout(resolve, ms))] *)
Definition delay (ms : Z) : M unit := fun _ s => (Ok tt, record (EvDelay ms) s).

(** [const results = {}] *)
Definition new_results : M unit := fun _ s => (Ok tt, mkState ∅ (trace s)).

(** [results[k] = v] *)
Definition set_result (k : string) (v : value) : M unit :=
  fun _ s => (Ok tt, mkState (<[k := v]> (results s)) (trace s)).

(** [return results] *)
Definition get_results : M (gmap string value) := fun _ s => (Ok (results s), s).

(** [v > 0] *)
Definition gt0 (v : value) : M bool :=
  fun w s =>
    match v with
    | VNum n => (Ok (0 <? n), s)
    | VBool b => (Ok b, s)
    | VUndef | VNull => (Ok false, s)
    | VStr _ | VArr _ | VObj _ => (ToNumber_gt0 w v, s)
    end.

Declare Scope eff_scope.
Delimit Scope eff_scope with eff.
Notation "x <- m ;; k" := (bind m (fun x => k))
  (at level 100, m at next level, right associativity) : eff_scope.
Notation "m ;; k" := (bind m (fun _ => k))
  (at level 100, right associativity) : eff_scope.

Local Open Scope eff_scope.

(** [l.forEach(f)]: stops at the first throw. *)
Fixpoint forEach {A} (l : list A) (f : A -> M unit) : M unit :=
  match l with
  | [] => ret tt
  | x :: l' => f x ;; forEach l' f
  end.

(** [l.forEach((x, index) => f x index)], counting from [i]. *)
Fixpoint forEachIndexed {A} (i : nat) (l : list A) (f : A -> nat -> M unit) : M unit :=
  match l with
  | [] => ret tt
  | x :: l' => f x i ;; forEachIndexed (S i) l' f
  end.

(** [for (let i = i0; i < n; i += step) body(i)]. [fuel] bounds the
    number of iterations; the loop of [RealDebrid.checkCache] is given
    [n], which is shown below to be enough. *)
Fixpoint for_loop (fuel i n step : nat) (body : nat -> M unit) : M unit :=
  match fuel with
  | O => ret tt
  | S fuel' =>
      if (i <? n)%nat then body i ;; for_loop fuel' (i + step) n step body
      else ret tt
  end.

(** A whole call, from a fresh state. *)
Definition run {A} (w : world) (m : M A) : res A * state := m w init.

End Eff.
Export Eff.

Local Open Scope eff_scope.

(** ** The Real-Debrid client *)
Module RealDebrid.

Record t : Type := mk { apiKey : string; baseUrl : string }.

(** [constructor(apiKey)] *)
Definition new (apiKey : string) : t :=
  mk apiKey "https://api.real-debrid.com/rest/1.0".

(** [const batchSize = 40] *)
Definition batchSize : nat := 40.

(** [hashes.slice(i, j)] *)
Definition slice {A} (i j : nat) (l : list A) : list A := take (j - i) (drop i l).

(** The [fetch] of one batch: the joined hashes in the path, bearer
    authorisation. *)
Definition request_of (this : t) (batch : list string) : request :=
  mkRequest
    (baseUrl this +:+ "/torrents/instantAvailability/" +:+ join "/" batch)
    "GET"
    [("Authorization", "Bearer " +:+ apiKey this)]
    NoBody
    None.

(** The entry written when a batch could not be checked. *)
Definition uncached : value :=
  VObj [("cached", VBool false); ("variants", VArr []);
        ("downloadLink", VNull); ("service", VStr "Real-Debrid")].

(** [cacheInfo && cacheInfo.rd && cacheInfo.rd.length > 0] *)
Definition isCached (cacheInfo : value) : M value :=
  if truthy cacheInfo then
    rd <- lift (get cacheInfo "rd");;
    if truthy rd then
      len <- lift (get rd "length");;
      b <- gt0 len;;
      ret (VBool b)
    else ret rd
  else ret cacheInfo.

(** The body of [batch.forEach] when [response.ok]. *)
Definition mark_from (data : value) (hash : string) : M unit :=
  let hashLower := toLowerCase hash in
  cacheInfo <- lift (get data hashLower);;
  cached <- isCached cacheInfo;;
  rd <- lift (get_opt cacheInfo "rd");;
  set_result hashLower
    (VObj [("cached", cached); ("variants", or_else rd (VArr []));
           ("downloadLink", VNull); ("service", VStr "Real-Debrid")]).

(** The body of [batch.forEach] in the [else] branch and in [catch]. *)
Definition mark_uncached (hash : string) : M unit :=
  set_result (toLowerCase hash) uncached.

(** One iteration of the [for] loop, at start index [i]. *)
Definition check_batch (this : t) (hashes : list string) (i : nat) : M unit :=
  let batch := slice i (i + batchSize) hashes in
  try_catch
    (response <- fetch (request_of this batch);;
     data <- json response;;
     (if ok response
      then forEach batch (mark_from data)
      else forEach batch mark_uncached);;
     if (i + batchSize <? length hashes)%nat then delay 500 else ret tt)
    (fun _ => forEach batch mark_uncached).

Definition checkCache (this : t) (hashes : list string) : M (gmap string value) :=
  if (length hashes =? 0)%nat then ret ∅
  else
    new_results;;
    for_loop (length hashes) 0 (length hashes) batchSize (check_batch this hashes);;
    get_results.

(** The batches the loop cuts, by the loop's own recursion. *)
Fixpoint batches_from (fuel i : nat) (hashes : list string) : list (list string) :=
  match fuel with
  | O => []
  | S fuel' =>
      if (i <? length hashes)%nat
      then slice i (i + batchSize) hashes :: batches_from fuel' (i + batchSize) hashes
      else []
  end.

Definition batches (hashes : list string) : list (list string) :=
  batches_from (length hashes) 0 hashes.

(** The [Authorization] header of every request of the class. *)
Definition bearer (this : t) : list (string * string) :=
  [("Authorization", "Bearer " +:+ apiKey this)].

Definition torrents_request (this : t) : request :=
  mkRequest (baseUrl this +:+ "/torrents") "GET" (bearer this) NoBody None.

Definition getTorrents (this : t) : M value :=
  response <- fetch (torrents_request this);;
  if negb (ok response)
  then throw (Error ("Failed to get torrents list from Real-Debrid: "
                     +:+ num_to_string (status response)))
  else json response.

Definition delete_request (this : t) (torrentId : string) : request :=
  mkRequest (baseUrl this +:+ "/torrents/delete/" +:+ torrentId) "DELETE"
    (bearer this) NoBody None.

(** The status is compared with 204 only to log; nothing is returned. *)
Definition deleteTorrent (this : t) (torrentId : string) : M unit :=
  response <- fetch (delete_request this torrentId);;
  if negb (status response =? 204) then ret tt else ret tt.

Definition info_request (this : t) (torrentId : string) : request :=
  mkRequest (baseUrl this +:+ "/torrents/info/" +:+ torrentId) "GET"
    (bearer this) NoBody None.

Definition getTorrentInfo (this : t) (torrentId : string) : M value :=
  response <- fetch (info_request this torrentId);;
  if negb (ok response)
  then throw (Error ("Failed to get torrent info from Real-Debrid: "
                     +:+ num_to_string (status response)))
  else json response.

Definition user_request (this : t) : request :=
  mkRequest (baseUrl this +:+ "/user") "GET" (bearer this) NoBody None.

Definition getUser (this : t) : M value :=
  response <- fetch (user_request this);;
  if negb (ok response)
  then throw (Error ("Failed to get user info: " +:+ num_to_string (status response)))
  else json response.

End RealDebrid.

(** ** The Torbox client *)
Module Torbox.

Record t : Type := mk { apiKey : string; baseUrl : string }.

Definition new (apiKey : string) : t := mk apiKey "https://api.torbox.app/v1/api".

Definition request_of (this : t) (hashes : list string) : request :=
  mkRequest
    (baseUrl this +:+ "/torrents/checkcached")
    "POST"
    [("Authorization", "Bearer " +:+ apiKey this);
     ("Content-Type", "application/json")]
    (JsonBody (VObj [("hashes", VArr (VStr <$> hashes));
                     ("format", VStr "object");
                     ("list_files", VBool true)]))
    None.

Definition uncached : value :=
  VObj [("cached", VBool false); ("files", VArr []);
        ("downloadLink", VNull); ("service", VStr "Torbox")].

(** The body of [hashes.forEach] on a successful answer. [inner] is
    [data.data]. *)
Definition mark_from (inner : value) (hash : string) : M unit :=
  let hashLower := toLowerCase hash in
  cacheInfo <- lift (get inner hashLower);;
  let cached := truthy cacheInfo in
  files <- lift (get_opt cacheInfo "files");;
  set_result hashLower
    (VObj [("cached", VBool cached); ("files", or_else files (VArr []));
           ("downloadLink", VNull); ("service", VStr "Torbox")]).

Definition mark_uncached (hash : string) : M unit :=
  set_result (toLowerCase hash) uncached.

Definition checkCache (this : t) (hashes : list string) : M (gmap string value) :=
  if (length hashes =? 0)%nat then ret ∅
  else
    new_results;;
    try_catch
      (response <- fetch (request_of this hashes);;
       (if negb (ok response)
        then throw (Error ("Torbox API error: " +:+ num_to_string (status response)))
        else ret tt);;
       data <- json response;;
       success <- lift (get data "success");;
       inner <- (if truthy success then lift (get data "data") else ret success);;
       if truthy inner
       then forEach hashes (mark_from inner)
       else ret tt)
      (fun _ => forEach hashes mark_uncached);;
    get_results.

Definition mylist_request (this : t) : request :=
  mkRequest (baseUrl this +:+ "/torrents/mylist") "GET"
    [("Authorization", "Bearer " +:+ apiKey this)] NoBody None.

(** [return data.data || []] *)
Definition getTorrents (this : t) : M value :=
  response <- fetch (mylist_request this);;
  if negb (ok response)
  then throw (Error ("Failed to get torrents list from Torbox: "
                     +:+ num_to_string (status response)))
  else
    data <- json response;;
    inner <- lift (get data "data");;
    ret (or_else inner (VArr [])).

Definition create_request (this : t) (magnetLink : string) : request :=
  mkRequest (baseUrl this +:+ "/torrents/createtorrent") "POST"
    [("Authorization", "Bearer " +:+ apiKey this);
     ("Content-Type", "application/json")]
    (JsonBody (VObj [("magnet", VStr magnetLink)]))
    None.

(** [await response.json().catch(() => ({}))] *)
Definition json_or_empty (r : response) : M value :=
  try_catch (json r) (fun _ => ret (VObj [])).

Definition addMagnet (this : t) (magnetLink : string) : M value :=
  response <- fetch (create_request this magnetLink);;
  if negb (ok response) then
    errorData <- json_or_empty response;;
    detail <- lift (get errorData "error");;
    text <- lift (to_string (or_else detail (VStr "Unknown")));;
    throw (Error ("Torbox addMagnet error: " +:+ num_to_string (status response)
                  +:+ " - " +:+ text))
  else json response.

End Torbox.

(** ** The AllDebrid client *)
Module AllDebrid.

Record t : Type := mk { apiKey : string; baseUrl : string }.

Definition new (apiKey : string) : t := mk apiKey "https://api.alldebrid.com/v4".

(** [hashes.map(h => `magnet:?xt=urn:btih:${h}`).join('|')] *)
Definition magnetList (hashes : list string) : string :=
  join "|" ((fun h => "magnet:?xt=urn:btih:" +:+ h) <$> hashes).

Definition request_of (this : t) (hashes : list string) : request :=
  mkRequest
    (baseUrl this +:+ "/magnet/instant?agent=stremizio&apikey=" +:+ apiKey this)
    "POST"
    [("Content-Type", "application/x-www-form-urlencoded")]
    (FormBody "magnets[]" (magnetList hashes))
    None.

Definition uncached : value :=
  VObj [("cached", VBool false); ("files", VArr []);
        ("downloadLink", VNull); ("service", VStr "AllDebrid")].

(** The entry written for one element of the answer. *)
Definition entry_of (instant files : value) : value :=
  VObj [("cached", VBool (strict_eq_bool instant true));
        ("files", or_else files (VArr []));
        ("downloadLink", VNull); ("service", VStr "AllDebrid")].

(** The body of [magnets.forEach((magnet, index) => ...)]:
    [hashes[index]] is [undefined] past the end of [hashes], and
    [.toLowerCase()] on it throws. *)
Definition mark_from (hashes : list string) (magnet : value) (index : nat) : M unit :=
  match hashes !! index with
  | None => throw TypeError
  | Some h =>
      let hash := toLowerCase h in
      instant <- lift (get magnet "instant");;
      files <- lift (get magnet "files");;
      set_result hash (entry_of instant files)
  end.

Definition mark_uncached (hash : string) : M unit :=
  set_result (toLowerCase hash) uncached.

(** [magnets.forEach(...)]: only an array has the method. *)
Definition forEach_magnets (magnets : value) (f : value -> nat -> M unit) : M unit :=
  match magnets with
  | VArr items => forEachIndexed 0 items f
  | _ => throw TypeError
  end.

Definition checkCache (this : t) (hashes : list string) : M (gmap string value) :=
  if (length hashes =? 0)%nat then ret ∅
  else
    new_results;;
    try_catch
      (response <- fetch (request_of this hashes);;
       (if negb (ok response)
        then throw (Error ("AllDebrid API error: " +:+ num_to_string (status response)))
        else ret tt);;
       data <- json response;;
       st <- lift (get data "status");;
       inner <- (if strict_eq_str st "success" then lift (get data "data")
                 else ret (VBool false));;
       magnets <- (if truthy inner then lift (get inner "magnets") else ret inner);;
       if truthy magnets
       then forEach_magnets magnets (mark_from hashes)
       else ret tt)
      (fun _ => forEach hashes mark_uncached);;
    get_results.

Definition upload_request (this : t) (magnetLink : string) : request :=
  mkRequest
    (baseUrl this +:+ "/magnet/upload?agent=stremizio&apikey=" +:+ apiKey this)
    "POST"
    [("Content-Type", "application/x-www-form-urlencoded")]
    (FormBody "magnets[]" magnetLink)
    None.

(** [await response.json().catch(() => ({}))] *)
Definition json_or_empty (r : response) : M value :=
  try_catch (json r) (fun _ => ret (VObj [])).

Definition addMagnet (this : t) (magnetLink : string) : M value :=
  response <- fetch (upload_request this magnetLink);;
  if negb (ok response) then
    errorData <- json_or_empty response;;
    detail <- lift (get errorData "detail");;
    text <- lift (to_string (or_else detail (VStr "Unknown")));;
    throw (Error ("AllDebrid addMagnet error: " +:+ num_to_string (status response)
                  +:+ " - " +:+ text))
  else json response.

Definition unlock_request (this : t) (link : string) : request :=
  mkRequest
    (baseUrl this +:+ "/link/unlock?agent=stremizio&apikey=" +:+ apiKey this)
    "POST"
    [("Content-Type", "application/x-www-form-urlencoded")]
    (FormBody "link" link)
    None.

Definition unrestrictLink (this : t) (link : string) : M value :=
  response <- fetch (unlock_request this link);;
  if negb (ok response) then
    errorData <- json_or_empty response;;
    detail <- lift (get errorData "detail");;
    text <- lift (to_string (or_else detail (VStr "Unknown")));;
    throw (Error ("AllDebrid unrestrict error: " +:+ num_to_string (status response)
                  +:+ " - " +:+ text))
  else json response.

End AllDebrid.

(** ** [checkAllDebridCaches] *)
Module Aggregator.

(** A provider object, seen through its [checkCache] method: what the
    promise it returns settles to for the given hashes. *)
Definition client : Type := list string -> res (gmap string value).

(** A client class run in its own world. *)
Definition as_client (w : world) (checkCache : list string -> M (gmap string value)) : client :=
  fun hashes => fst (run w (checkCache hashes)).

Record services : Type := mkServices {
  realdebrid : option client;
  torbox : option client;
  alldebrid : option client;
  useRealDebrid : bool;
  useTorbox : bool;
  useAllDebrid : bool
}.

(** The [cacheResults] object and the [checkCache] calls made, by
    provider name, in call order. *)
Record progress : Type := mkProgress {
  cacheResults : gmap string (gmap string value);
  invoked : list string
}.

(** [if (use && provider) checks.push(provider.checkCache(hashes)
      .then(result => { cacheResults[name] = result; })
      .catch(err => console.error(...)))].
    The three callbacks write three different keys, so the order in which
    the promises settle does not show in [cacheResults]; they are applied
    in the order of the calls. *)
Definition check (name : string) (use : bool) (provider : option client)
    (hashes : list string) (p : progress) : progress :=
  match use, provider with
  | true, Some c =>
      match c hashes with
      | Ok result => mkProgress (<[name := result]> (cacheResults p)) (invoked p ++ [name])
      | Throw _ => mkProgress (cacheResults p) (invoked p ++ [name])
      end
  | _, _ => p
  end.

Definition checkAllDebridCaches (hashes : list string) (s : services) : progress :=
  let p0 :=
    mkProgress
      (<["alldebrid" := ∅]> (<["torbox" := ∅]> (<["realdebrid" := ∅]> ∅)))
      [] in
  let p1 := check "realdebrid" (useRealDebrid s) (realdebrid s) hashes p0 in
  let p2 := check "torbox" (useTorbox s) (torbox s) hashes p1 in
  check "alldebrid" (useAllDebrid s) (alldebrid s) hashes p2.

End Aggregator.

(** ** [createDebridServices] *)
Module Registry.

(** The configuration, as the factory reads it: a switch and a key (or
    no key) per provider. *)
Record config : Type := mkConfig {
  use_rd : bool;
  rd_key : option string;
  use_torbox : bool;
  torbox_key : option string;
  use_alldebrid : bool;
  alldebrid_key : option string
}.

(** The [services] object: the three instances (or [null]) and the three
    flags. *)
Record instances : Type := mkInstances {
  realdebrid : option RealDebrid.t;
  torbox : option Torbox.t;
  alldebrid : option AllDebrid.t;
  useRealDebrid : bool;
  useTorbox : bool;
  useAllDebrid : bool
}.

(** The key when [use && key && key.length > 5] holds (a key without
    characters outside ASCII, whose length is its number of bytes). *)
Definition accepted (use : bool) (key : option string) : option string :=
  match key with
  | Some k => if use && truthy (VStr k) && (5 <? String.length k)%nat then Some k else None
  | None => None
  end.

Definition createDebridServices (c : config) : instances :=
  let services := mkInstances None None None false false false in
  let services :=
    match accepted (use_rd c) (rd_key c) with
    | Some k => mkInstances (Some (RealDebrid.new k)) (torbox services) (alldebrid services)
                            true (useTorbox services) (useAllDebrid services)
    | None => services
    end in
  let services :=
    match accepted (use_torbox c) (torbox_key c) with
    | Some k => mkInstances (realdebrid services) (Some (Torbox.new k)) (alldebrid services)
                            (useRealDebrid services) true (useAllDebrid services)
    | None => services
    end in
  match accepted (use_alldebrid c) (alldebrid_key c) with
  | Some k => mkInstances (realdebrid services) (torbox services) (Some (AllDebrid.new k))
                          (useRealDebrid services) (useTorbox services) true
  | None => services
  end.

(** The object handed to [checkAllDebridCaches]: each instance seen
    through its [checkCache], answered by the world of its provider. *)
Definition as_services (w_rd w_tb w_ad : world) (i : instances) : Aggregator.services :=
  Aggregator.mkServices
    ((fun o => Aggregator.as_client w_rd (RealDebrid.checkCache o)) <$> realdebrid i)
    ((fun o => Aggregator.as_client w_tb (Torbox.checkCache o)) <$> torbox i)
    ((fun o => Aggregator.as_client w_ad (AllDebrid.checkCache o)) <$> alldebrid i)
    (useRealDebrid i) (useTorbox i) (useAllDebrid i).

End Registry.

(** ** [lib/id-converter.cjs] *)
Module IdConverter.

Definition TMDB_API_KEY : string := "5462f78469f3d80bf5201645294c16e4".
Definition TMDB_BASE_URL : string := "https://api.themoviedb.org/3".

(** The arguments as the JSDoc types them: a string or [null], a number
    or [null]. *)
Definition str_or_null (o : option string) : value :=
  match o with Some s => VStr s | None => VNull end.

Definition num_or_null (o : option Z) : value :=
  match o with Some n => VNum n | None => VNull end.

(** [{ tmdbId, type }] *)
Definition conversion (tmdbId type : value) : value :=
  VObj [("tmdbId", tmdbId); ("type", type)].

(** [{ imdbId, tmdbId }] *)
Definition id_pair (imdbId tmdbId : value) : value :=
  VObj [("imdbId", imdbId); ("tmdbId", tmdbId)].

Definition find_request (imdbId : string) : request :=
  mkRequest
    (TMDB_BASE_URL +:+ "/find/" +:+ imdbId +:+ "?api_key=" +:+ TMDB_API_KEY
       +:+ "&external_source=imdb_id")
    "GET" [] NoBody (Some 10000).

Definition details_request (mediaType : string) (tmdbId : Z) : request :=
  mkRequest
    (TMDB_BASE_URL +:+ "/" +:+ mediaType +:+ "/" +:+ num_to_string tmdbId
       +:+ "?api_key=" +:+ TMDB_API_KEY +:+ "&append_to_response=external_ids")
    "GET" [] NoBody (Some 10000).

(** [v && v.length > 0] as a condition. *)
Definition has_results (v : value) : M bool :=
  if truthy v then len <- lift (get v "length");; gt0 len else ret false.

(** [v[0].field] *)
Definition first_field (v : value) (field : string) : M value :=
  first <- lift (get v "0");;
  lift (get first field).

Definition imdbToTmdb (imdbId : option string) : M value :=
  match imdbId with
  | None => ret (conversion VNull VNull)
  | Some id =>
      if negb (truthy (VStr id)) || negb (startsWith id "tt")
      then ret (conversion VNull VNull)
      else
        try_catch
          (response <- fetch (find_request id);;
           if negb (ok response) then ret (conversion VNull VNull)
           else
             data <- json response;;
             movie_results <- lift (get data "movie_results");;
             movie <- has_results movie_results;;
             if movie then
               tmdbId <- first_field movie_results "id";;
               ret (conversion tmdbId (VStr "movie"))
             else
               tv_results <- lift (get data "tv_results");;
               tv <- has_results tv_results;;
               if tv then
                 tmdbId <- first_field tv_results "id";;
                 ret (conversion tmdbId (VStr "series"))
               else
                 tv_episode_results <- lift (get data "tv_episode_results");;
                 episode <- has_results tv_episode_results;;
                 if episode then
                   tmdbId <- first_field tv_episode_results "show_id";;
                   ret (conversion tmdbId (VStr "series"))
                 else ret (conversion VNull VNull))
          (fun _ => ret (conversion VNull VNull))
  end.

Definition tmdbToImdb (tmdbId : option Z) (type : option string) : M value :=
  match tmdbId, type with
  | Some n, Some ty =>
      if negb (truthy (VNum n)) || negb (truthy (VStr ty)) then ret VNull
      else
        let mediaType := if strict_eq_str (VStr ty) "series" then "tv" else "movie" in
        try_catch
          (response <- fetch (details_request mediaType n);;
           if negb (ok response) then ret VNull
           else
             data <- json response;;
             external_ids <- lift (get data "external_ids");;
             if truthy external_ids then
               imdbId <- lift (get external_ids "imdb_id");;
               if truthy imdbId then ret imdbId else ret VNull
             else ret VNull)
          (fun _ => ret VNull)
  | _, _ => ret VNull
  end.

Definition completeIds (imdbId : option string) (tmdbId : option Z)
    (type : option string) : M value :=
  let a := str_or_null imdbId in
  let b := num_or_null tmdbId in
  if truthy a && truthy b then ret (id_pair a b)
  else if truthy a && negb (truthy b) then
    result <- imdbToTmdb imdbId;;
    converted <- lift (get result "tmdbId");;
    ret (id_pair a converted)
  else if negb (truthy a) && truthy b then
    convertedImdbId <- tmdbToImdb tmdbId type;;
    ret (id_pair convertedImdbId b)
  else ret (id_pair VNull VNull).

End IdConverter.

(** * Vocabulary of the statements

    The words the statements below are written in: what a failed request
    is, what a [forEach] of writes leaves behind, the entries of a
    successful answer, the worlds and inputs of the concrete runs. *)

(** A request failed: the transport threw, or the answer is not 2xx. *)
Definition failed (fr : fetch_result) : Prop :=
  match fr with
  | Rejects _ => True
  | Responds r => ok r = false
  end.

(** Every key of [m] is the lowercasing of one of [hashes]. *)
Definition keys_within (hashes : list string) (m : gmap string value) : Prop :=
  forall k, is_Some (m !! k) -> k ∈ toLowerCase <$> hashes.

(** [m] keeps [J] true of the [results] object, whether it returns or
    throws. *)
Definition preserves {A} (w : world) (J : gmap string value -> Prop) (m : M A) : Prop :=
  forall s, J (results s) -> J (results (snd (m w s))).

(** [m] returns: it does not throw. *)
Definition returns {A} (w : world) (m : M A) : Prop :=
  forall s, exists a, fst (m w s) = Ok a.

(** What [l.forEach(h => results[h.toLowerCase()] = g(h.toLowerCase()))]
    leaves in [results]. *)
Definition write_all (g : string -> value) (l : list string) (m : gmap string value) :
    gmap string value :=
  foldl (fun acc h => <[toLowerCase h := g (toLowerCase h)]> acc) m l.

(** The same with one entry [v] for every hash. *)
Definition mark_all (v : value) : list string -> gmap string value -> gmap string value :=
  write_all (fun _ => v).

(** [v.k] where it cannot throw. *)
Definition field (v : value) (k : string) : value :=
  match get v k with Ok x => x | Throw _ => VUndef end.

(** The entry written for key [k] on a successful answer whose [data.data]
    is [inner]. *)
Definition tb_entry (inner : value) (k : string) : value :=
  let cacheInfo := field inner k in
  let files := match get_opt cacheInfo "files" with Ok f => f | Throw _ => VUndef end in
  VObj [("cached", VBool (truthy cacheInfo)); ("files", or_else files (VArr []));
        ("downloadLink", VNull); ("service", VStr "Torbox")].

(** An element of the answer whose properties can be read. *)
Definition readable (v : value) : Prop := v <> VNull /\ v <> VUndef.

(** The entry written for one element of the answer. *)
Definition ad_entry (magnet : value) : value :=
  AllDebrid.entry_of (field magnet "instant") (field magnet "files").

(** Pairing by position, in the words of the specification: the element
    at index [i] of the answer goes with the hash at index [i] of the
    input. *)
Definition write_zip (hashes : list string) (magnets : list value)
    (m : gmap string value) : gmap string value :=
  foldl (fun acc p => <[toLowerCase p.1 := ad_entry p.2]> acc) m (zip hashes magnets).

(** A category of the [find] answer without a match: the field is
    missing (or otherwise falsy), or it is the empty array. *)
Definition no_match (v : value) : Prop := truthy v = false \/ v = VArr [].

(** What one provider contributes, given its switch and its object. *)
Definition contribution (p : Aggregator.progress) (name : string) (use : bool)
    (provider : option Aggregator.client) (hashes : list string) : Prop :=
  match use, provider with
  | true, Some c =>
      name ∈ Aggregator.invoked p
      /\ match c hashes with
         | Ok result => Aggregator.cacheResults p !! name = Some result
         | Throw _ => Aggregator.cacheResults p !! name = Some ∅
         end
  | _, _ => Aggregator.cacheResults p !! name = Some ∅ /\ name ∉ Aggregator.invoked p
  end.

(** The call returned a map whose keys are lowercased spellings of input
    hashes, one key per spelling-insensitive hash. *)
Definition lowercased_keys (hashes : list string)
    (out : res (gmap string value) * state) : Prop :=
  exists m s',
    out = (Ok m, s')
    /\ (forall k, is_Some (m !! k) -> k ∈ toLowerCase <$> hashes /\ toLowerCase k = k)
    /\ (forall k1 k2, is_Some (m !! k1) -> is_Some (m !! k2) ->
                      toLowerCase k1 = toLowerCase k2 -> k1 = k2).

(** The call returned a map that has an entry for every input hash. *)
Definition total_on (hashes : list string)
    (out : res (gmap string value) * state) : Prop :=
  exists m s',
    out = (Ok m, s') /\ forall h, h ∈ hashes -> is_Some (m !! toLowerCase h).

(** C1 as the specification states it: for a non-empty input each of the
    three clients returns, in every world, a map with an entry for every
    input hash. *)
Definition checkCache_total_claim : Prop :=
  forall (w : world) (hashes : list string),
    hashes <> [] ->
    (forall this, total_on hashes (run w (RealDebrid.checkCache this hashes)))
    /\ (forall this, total_on hashes (run w (Torbox.checkCache this hashes)))
    /\ (forall this, total_on hashes (run w (AllDebrid.checkCache this hashes))).

(** C4 as the specification states it: on a successful answer whose
    [data] is the object [props], a hash is [cached: true] exactly when
    its lowercased form is a key of [props], whatever the value. *)
Definition torbox_presence_claim : Prop :=
  forall (w : world) (this : Torbox.t) (hashes : list string) r data success props,
    hashes <> [] ->
    net w 0 (Torbox.request_of this hashes) = Responds r -> ok r = true ->
    json_body r = Some data ->
    get data "success" = Ok success -> truthy success = true ->
    get data "data" = Ok (VObj props) ->
    exists m s',
      run w (Torbox.checkCache this hashes) = (Ok m, s')
      /\ forall h, h ∈ hashes ->
           exists e, m !! toLowerCase h = Some e
                     /\ get e "cached"
                        = Ok (VBool (bool_decide (toLowerCase h ∈ props.*1))).

(** C5 as the specification states it: on a successful answer of
    AllDebrid (2xx, status ['success']) whose [magnets] is an array, the
    hash at index [i] has an entry, which is [cached: true] exactly when
    the [instant] of the element at index [i] is [true]. The hashes are
    taken distinct up to case, so that no position writes the key of
    another. *)
Definition alldebrid_pairing_claim : Prop :=
  forall (w : world) (this : AllDebrid.t) (hashes : list string) r data inner magnets,
    hashes <> [] ->
    NoDup (toLowerCase <$> hashes) ->
    net w 0 (AllDebrid.request_of this hashes) = Responds r -> ok r = true ->
    json_body r = Some data ->
    get data "status" = Ok (VStr "success") ->
    get data "data" = Ok inner -> truthy inner = true ->
    get inner "magnets" = Ok (VArr magnets) ->
    exists m s',
      run w (AllDebrid.checkCache this hashes) = (Ok m, s')
      /\ forall i h magnet,
           hashes !! i = Some h -> magnets !! i = Some magnet ->
           exists e, m !! toLowerCase h = Some e
                     /\ get e "cached"
                        = Ok (VBool (strict_eq_bool (field magnet "instant") true)).

(** Worlds and inputs for the concrete runs below. None of these runs
    compares a string, an array or an object with [0], so the choice made
    for [ToNumber_gt0] in them does not show. *)
Definition answers (f : nat -> fetch_result) : world :=
  mkWorld (fun n _ => f n) (fun _ => Throw TypeError).

Definition ok_json (v : value) : fetch_result := Responds (mkResponse 200 (Some v)).

Definition sample_hash : string := "C0FFEE00C0FFEE00C0FFEE00C0FFEE00C0FFEE00".
Definition sample_key : string := "c0ffee00c0ffee00c0ffee00c0ffee00c0ffee00".
Definition other_hash : string := "00000000000000000000000000000000deadbeef".

(** 85 hashes: 38 zeros and the two digits of 10..94. *)
Definition hashes85 : list string :=
  (fun n => "00000000000000000000000000000000000000" +:+ pretty n) <$> seq 10 85.

(** The first request is cut by the transport, the others answer [{}]. *)
Definition first_request_throws : world :=
  answers (fun n => match n with
                    | O => Rejects (FetchError "socket hang up")
                    | S _ => ok_json (VObj [])
                    end).

(** ** Vocabulary of the further properties *)

Definition is_ok {A} (r : res A) : bool :=
  match r with Ok _ => true | Throw _ => false end.

(** [m] issues no request and waits for nothing. *)
Definition silent {A} (w : world) (m : M A) : Prop :=
  forall s, trace (snd (m w s)) = trace s.

(** An element of the answer of AllDebrid that cannot be read. *)
Definition unreadable (v : value) : Prop := v = VNull \/ v = VUndef.

(** The [try] block of the Real-Debrid iteration for [batch] runs to its
    end when request number [n] of the call is answered: the request is
    answered, the body parses, and (on a 2xx answer) no entry of the
    batch throws while it is read. *)
Definition rd_completes (w : world) (this : RealDebrid.t) (batch : list string)
    (n : nat) : bool :=
  match net w n (RealDebrid.request_of this batch) with
  | Rejects _ => false
  | Responds r =>
      match json_body r with
      | None => false
      | Some data =>
          if ok r then is_ok (fst (forEach batch (RealDebrid.mark_from data) w init))
          else true
      end
  end.

(** What a Real-Debrid call does, batch by batch, from request number
    [n]: the request of the batch, then a delay of 500 ms when the [try]
    block ran to its end and another batch follows. *)
Fixpoint rd_events (w : world) (this : RealDebrid.t) (n : nat)
    (bs : list (list string)) : list event :=
  match bs with
  | [] => []
  | b :: rest =>
      EvFetch (RealDebrid.request_of this b)
      :: (if rd_completes w this b n && negb (bool_decide (rest = []))
          then [EvDelay 500] else [])
      ++ rd_events w this (S n) rest
  end.

(** What Real-Debrid lists for a hash, in the shapes its answers have:
    nothing, or a value whose [rd] is missing or an array. *)
Definition rd_simple (cacheInfo : value) : Prop :=
  cacheInfo = VUndef
  \/ (truthy cacheInfo = true
      /\ (field cacheInfo "rd" = VUndef \/ exists l, field cacheInfo "rd" = VArr l)).

(** The entry Real-Debrid's [checkCache] writes for such a value. *)
Definition rd_entry (cacheInfo : value) : value :=
  match (if truthy cacheInfo then field cacheInfo "rd" else VUndef) with
  | VArr l =>
      VObj [("cached", VBool (0 <? Z.of_nat (length l))); ("variants", VArr l);
            ("downloadLink", VNull); ("service", VStr "Real-Debrid")]
  | _ =>
      VObj [("cached", VUndef); ("variants", VArr []);
            ("downloadLink", VNull); ("service", VStr "Real-Debrid")]
  end.

(** Whatever [m] returns satisfies [P] (nothing is said when it
    throws). *)
Definition yields {A} (w : world) (P : A -> Prop) (m : M A) : Prop :=
  forall s, match fst (m w s) with Ok a => P a | Throw _ => True end.

(** A one-request wrapper that hides no failure: the call makes the one
    request [req]; a transport error is thrown on as it is, a non-2xx
    answer ends in a throw, and a 2xx answer gives the parsed body (or
    the parse error). *)
Definition passes_through (w : world) (req : request) (m : M value) : Prop :=
  trace (snd (run w m)) = [EvFetch req]
  /\ (forall e, net w 0 req = Rejects e -> fst (run w m) = Throw e)
  /\ (forall r, net w 0 req = Responds r -> ok r = false ->
                exists e, fst (run w m) = Throw e)
  /\ (forall r, net w 0 req = Responds r -> ok r = true ->
                fst (run w m) = match json_body r with
                                | Some v => Ok v
                                | None => Throw SyntaxError
                                end).

(** The result of [imdbToTmdb] is well formed: [{ tmdbId, type }] with
    type ['movie'] or ['series'], or both [null]. *)
Definition well_formed_conversion (v : value) : Prop :=
  v = IdConverter.conversion VNull VNull
  \/ exists tmdbId, v = IdConverter.conversion tmdbId (VStr "movie")
                    \/ v = IdConverter.conversion tmdbId (VStr "series").

(** The key the factory takes for a provider, in plain terms: the one
    configured, when the switch is on and the key has more than five
    characters. *)
Definition usable_key (use : bool) (key : option string) : option string :=
  match key with
  | Some k => if use && (5 <? String.length k)%nat then Some k else None
  | None => None
  end.

(** What [checkAllDebridCaches] has for a provider of the factory: with a
    usable key the provider was called, its call returned a map and that
    map is the entry; without one it was not called and the entry is
    empty. *)
Definition configured (p : Aggregator.progress) (hashes : list string) (name : string)
    (use : bool) (key : option string)
    (call : string -> res (gmap string value) * state) : Prop :=
  match usable_key use key with
  | Some k =>
      name ∈ Aggregator.invoked p
      /\ exists m s',
           call k = (Ok m, s')
           /\ Aggregator.cacheResults p !! name = Some m
           /\ keys_within hashes m
  | None =>
      (name ∉ Aggregator.invoked p) /\ Aggregator.cacheResults p !! name = Some ∅
  end.

(** The call threw an [Error] whose message is [prefix], the status of
    the answer, [" - "] and [detail]. *)
Definition reports (w : world) (m : M value) (prefix : string) (r : response)
    (detail : string) : Prop :=
  fst (run w m)
  = Throw (Error (prefix +:+ num_to_string (status r) +:+ " - " +:+ detail)).

(** How a failed upload or unlock reads the body of the answer [r], whose
    detail is the member [member]: a body that does not parse, or an
    object without a truthy [member], is reported as ["Unknown"]; a
    non-empty string at [member] is reported as it is; the body [null]
    ends in a [TypeError]. *)
Definition reports_detail (w : world) (m : M value) (prefix member : string)
    (r : response) : Prop :=
  (json_body r = None -> reports w m prefix r "Unknown")
  /\ (forall props, json_body r = Some (VObj props) ->
                    truthy (own props member) = false ->
                    reports w m prefix r "Unknown")
  /\ (forall props text, json_body r = Some (VObj props) ->
                         own props member = VStr text -> text <> "" ->
                         reports w m prefix r text)
  /\ (json_body r = Some VNull -> fst (run w m) = Throw TypeError).

(** What the upload and unlock wrappers do with an answer outside 2xx,
    the message prefix and the member read being theirs. *)
Definition fail_with (prefix member : string) (response : response) : M value :=
  bind (Torbox.json_or_empty response) (fun errorData =>
  bind (lift (get errorData member)) (fun detail =>
  bind (lift (to_string (or_else detail (VStr "Unknown")))) (fun text =>
  throw (Error (prefix +:+ num_to_string (status response) +:+ " - " +:+ text))))).

(** * Reasoning about runs *)

(** ** Lowercasing *)
Section Lowercase.

Lemma lower_ascii_idemp (a : ascii) : lower_ascii (lower_ascii a) = lower_ascii a.
Proof.
  destruct a as [[] [] [] [] [] [] [] []]; vm_compute; reflexivity.
Qed.

Lemma toLowerCase_idemp (s : string) : toLowerCase (toLowerCase s) = toLowerCase s.
Proof.
  induction s as [|a s IH]; simpl; [reflexivity|].
  rewrite lower_ascii_idemp, IH. reflexivity.
Qed.

End Lowercase.

(** ** Writing one entry per hash *)
Section WriteAll.

Lemma write_all_notin g l : forall (m : gmap string value) k,
  k ∉ toLowerCase <$> l -> write_all g l m !! k = m !! k.
Proof.
  induction l as [|h l IH]; intros m k Hk; simpl; [reflexivity|].
  rewrite fmap_cons, not_elem_of_cons in Hk. destruct Hk as [Hne Hk].
  unfold write_all in *. simpl. rewrite IH by assumption.
  apply lookup_insert_ne. congruence.
Qed.

Lemma write_all_in g l : forall (m : gmap string value) h,
  h ∈ l -> write_all g l m !! toLowerCase h = Some (g (toLowerCase h)).
Proof.
  induction l as [|x l IH]; intros m h Hin; [by apply elem_of_nil in Hin|].
  unfold write_all in *. simpl.
  destruct (decide (toLowerCase h ∈ toLowerCase <$> l)) as [Hl|Hl].
  - apply list_elem_of_fmap in Hl as (h' & Heq & Hh'). rewrite Heq. by apply IH.
  - apply elem_of_cons in Hin as [->|Hin].
    + fold (write_all g l (<[toLowerCase x := g (toLowerCase x)]> m)).
      rewrite write_all_notin by assumption. apply lookup_insert_eq.
    + exfalso. apply Hl. apply list_elem_of_fmap. eauto.
Qed.

Lemma mark_all_notin v l (m : gmap string value) k :
  k ∉ toLowerCase <$> l -> mark_all v l m !! k = m !! k.
Proof. apply write_all_notin. Qed.

Lemma mark_all_in v l (m : gmap string value) h :
  h ∈ l -> mark_all v l m !! toLowerCase h = Some v.
Proof. apply (write_all_in (fun _ => v)). Qed.

Lemma forEach_write_all (f : string -> M unit) (g : string -> value) w :
  (forall h s, f h w s
     = (Ok tt, mkState (<[toLowerCase h := g (toLowerCase h)]> (results s)) (trace s))) ->
  forall l s, forEach l f w s = (Ok tt, mkState (write_all g l (results s)) (trace s)).
Proof.
  intros Hf. induction l as [|h l IH]; intros s; simpl.
  - by destruct s.
  - unfold bind at 1. rewrite Hf, IH. reflexivity.
Qed.

Lemma forEach_set_result v (l : list string) w s :
  forEach l (fun h => set_result (toLowerCase h) v) w s
  = (Ok tt, mkState (mark_all v l (results s)) (trace s)).
Proof. by apply (forEach_write_all _ (fun _ => v)). Qed.

End WriteAll.

(** ** Properties kept by every step of a computation *)
Section Steps.

Context (w : world).

Lemma preserves_ret {A} J (a : A) : preserves w J (ret a).
Proof. intros s H. exact H. Qed.

Lemma preserves_throw {A} J e : preserves w J (@throw A e).
Proof. intros s H. exact H. Qed.

Lemma preserves_lift {A} J (r : res A) : preserves w J (lift r).
Proof. intros s H. exact H. Qed.

Lemma preserves_bind {A B} J (m : M A) (k : A -> M B) :
  preserves w J m -> (forall a, preserves w J (k a)) -> preserves w J (bind m k).
Proof.
  intros Hm Hk s H. unfold bind. specialize (Hm s H).
  destruct (m w s) as [[a|e] s1]; simpl in *; [by apply Hk | assumption].
Qed.

Lemma preserves_try_catch {A} J (m : M A) (h : exn -> M A) :
  preserves w J m -> (forall e, preserves w J (h e)) -> preserves w J (try_catch m h).
Proof.
  intros Hm Hh s H. unfold try_catch. specialize (Hm s H).
  destruct (m w s) as [[a|e] s1]; simpl in *; [assumption | by apply Hh].
Qed.

Lemma preserves_fetch J req : preserves w J (fetch req).
Proof. intros s H. unfold fetch. by destruct (net w _ req). Qed.

Lemma preserves_json J r : preserves w J (json r).
Proof. intros s H. unfold json. by destruct (json_body r). Qed.

Lemma preserves_set_result (J : gmap string value -> Prop) k v :
  (forall m, J m -> J (<[k := v]> m)) -> preserves w J (set_result k v).
Proof. intros HJ s H. simpl. by apply HJ. Qed.

Lemma preserves_forEach {A} J (l : list A) (f : A -> M unit) :
  (forall x, x ∈ l -> preserves w J (f x)) -> preserves w J (forEach l f).
Proof.
  induction l as [|x l IH]; intros Hf; simpl; [apply preserves_ret|].
  apply preserves_bind; [apply Hf; left | intros _; apply IH].
  intros y Hy. apply Hf. by right.
Qed.

Lemma preserves_forEachIndexed {A} J (l : list A) (f : A -> nat -> M unit) :
  (forall x i, preserves w J (f x i)) -> forall i, preserves w J (forEachIndexed i l f).
Proof.
  intros Hf. induction l as [|x l IH]; intros i; simpl; [apply preserves_ret|].
  apply preserves_bind; [apply Hf | intros _; apply IH].
Qed.

Lemma preserves_for_loop J fuel n step (body : nat -> M unit) :
  (forall i, preserves w J (body i)) -> forall i, preserves w J (for_loop fuel i n step body).
Proof.
  intros Hb. induction fuel as [|fuel IH]; intros i; simpl; [apply preserves_ret|].
  destruct (i <? n)%nat; [|apply preserves_ret].
  apply preserves_bind; [apply Hb | intros _; apply IH].
Qed.

Lemma returns_ret {A} (a : A) : returns w (ret a).
Proof. intros s. by exists a. Qed.

Lemma returns_bind {A B} (m : M A) (k : A -> M B) :
  returns w m -> (forall a, returns w (k a)) -> returns w (bind m k).
Proof.
  intros Hm Hk s. unfold bind. destruct (Hm s) as [a Ha].
  destruct (m w s) as [[a'|e] s1]; simpl in *; [apply Hk | discriminate].
Qed.

Lemma returns_try_catch {A} (m : M A) (h : exn -> M A) :
  (forall e, returns w (h e)) -> returns w (try_catch m h).
Proof.
  intros Hh s. unfold try_catch.
  destruct (m w s) as [[a|e] s1]; simpl; [by exists a | apply Hh].
Qed.

Lemma returns_set_result k v : returns w (set_result k v).
Proof. intros s. by exists tt. Qed.

Lemma returns_forEach {A} (l : list A) (f : A -> M unit) :
  (forall x, returns w (f x)) -> returns w (forEach l f).
Proof.
  intros Hf. induction l as [|x l IH]; simpl; [apply returns_ret|].
  apply returns_bind; [apply Hf | intros _; apply IH].
Qed.

Lemma returns_for_loop fuel n step (body : nat -> M unit) :
  (forall i, returns w (body i)) -> forall i, returns w (for_loop fuel i n step body).
Proof.
  intros Hb. induction fuel as [|fuel IH]; intros i; simpl; [apply returns_ret|].
  destruct (i <? n)%nat; [|apply returns_ret].
  apply returns_bind; [apply Hb | intros _; apply IH].
Qed.

End Steps.

Lemma keys_within_empty hashes : keys_within hashes ∅.
Proof. intros k [v Hv]. by rewrite lookup_empty in Hv. Qed.

Lemma keys_within_insert hashes (m : gmap string value) h v :
  h ∈ hashes -> keys_within hashes m -> keys_within hashes (<[toLowerCase h := v]> m).
Proof.
  intros Hh Hm k Hk. destruct (decide (toLowerCase h = k)) as [<-|Hne].
  - apply list_elem_of_fmap. eauto.
  - rewrite lookup_insert_ne in Hk by assumption. by apply Hm.
Qed.

Lemma fetches_app tr1 tr2 : fetches (tr1 ++ tr2) = fetches tr1 ++ fetches tr2.
Proof.
  induction tr1 as [|[req|ms] tr1 IH]; simpl; [reflexivity| |assumption].
  by rewrite IH.
Qed.

(** A [forEach] whose body writes the entry of its hash, or throws before
    writing: entries of other hashes are untouched, entries never
    disappear, and if it returns every hash has its entry. *)
Lemma forEach_writes (f : string -> M unit) w :
  (forall h s,
     (exists v, f h w s = (Ok tt, mkState (<[toLowerCase h := v]> (results s)) (trace s)))
     \/ (exists e, f h w s = (Throw e, s))) ->
  forall l s, exists r s',
    forEach l f w s = (r, s')
    /\ trace s' = trace s
    /\ (forall k, k ∉ toLowerCase <$> l -> results s' !! k = results s !! k)
    /\ (forall k, is_Some (results s !! k) -> is_Some (results s' !! k))
    /\ (r = Ok tt -> forall h, h ∈ l -> is_Some (results s' !! toLowerCase h)).
Proof.
  intros Hf. induction l as [|x l IH]; intros s.
  - exists (Ok tt), s. simpl. repeat split; try done.
    intros _ h Hh. by apply elem_of_nil in Hh.
  - simpl. unfold bind. destruct (Hf x s) as [[v Hv]|[e He]].
    + rewrite Hv. destruct (IH (mkState (<[toLowerCase x := v]> (results s)) (trace s)))
        as (r & s' & Hrun & Htr & Hframe & Hmono & Hall).
      exists r, s'. simpl in *. repeat split; try assumption.
      * intros k Hk. rewrite ?fmap_cons in Hk. apply not_elem_of_cons in Hk as [Hne Hk].
        rewrite Hframe by assumption. apply lookup_insert_ne. congruence.
      * intros k Hk. apply Hmono.
        destruct (decide (toLowerCase x = k)) as [->|Hne].
        -- rewrite lookup_insert_eq. eauto.
        -- by rewrite lookup_insert_ne.
      * intros Hr h Hh. apply elem_of_cons in Hh as [->|Hh]; [|by apply Hall].
        apply Hmono. rewrite lookup_insert_eq. eauto.
    + rewrite He. exists (Throw e), s. repeat split; try done.
Qed.

Lemma elem_of_slice {A} (x : A) i j l : x ∈ RealDebrid.slice i j l -> x ∈ l.
Proof.
  unfold RealDebrid.slice. intros H.
  apply list_elem_of_lookup in H as [n Hn].
  rewrite lookup_take_Some in Hn. destruct Hn as [Hn _].
  rewrite lookup_drop in Hn. apply list_elem_of_lookup. eauto.
Qed.

Lemma elem_of_concat {A} (x : A) (ls : list (list A)) :
  x ∈ concat ls -> exists l, x ∈ l /\ l ∈ ls.
Proof.
  induction ls as [|l ls IH]; simpl; intros H; [by apply elem_of_nil in H|].
  apply elem_of_app in H as [H|H].
  - exists l. split; [assumption|left].
  - destruct (IH H) as (l' & Hx & Hl'). exists l'. split; [assumption|by right].
Qed.

(** ** Real-Debrid: one batch, then the loop *)
Section RealDebridFacts.

Import RealDebrid.
Context (w : world) (this : RealDebrid.t).

Lemma rd_isCached_state cacheInfo s : snd (isCached cacheInfo w s) = s.
Proof.
  unfold isCached. destruct (truthy cacheInfo); [|reflexivity].
  unfold bind, lift. destruct (get cacheInfo "rd") as [rd|e]; [|reflexivity].
  destruct (truthy rd); [|reflexivity].
  destruct (get rd "length") as [len|e]; [|reflexivity].
  destruct len; simpl; try reflexivity; by destruct (ToNumber_gt0 w _).
Qed.

Lemma rd_mark_from_step data h s :
  (exists v, mark_from data h w s
             = (Ok tt, mkState (<[toLowerCase h := v]> (results s)) (trace s)))
  \/ (exists e, mark_from data h w s = (Throw e, s)).
Proof.
  unfold mark_from, bind, lift. cbv beta.
  destruct (get data (toLowerCase h)) as [cacheInfo|e]; [|right; by exists e].
  pose proof (rd_isCached_state cacheInfo s) as Hs.
  destruct (isCached cacheInfo w s) as [[cached|e] s1]; simpl in Hs; subst s1;
    [|right; by exists e].
  destruct (get_opt cacheInfo "rd") as [rd|e]; [|right; by exists e].
  left. eexists. reflexivity.
Qed.

Lemma rd_mark_uncached_all batch s :
  forEach batch mark_uncached w s
  = (Ok tt, mkState (mark_all uncached batch (results s)) (trace s)).
Proof. apply forEach_set_result. Qed.

Lemma rd_pause i (hashes : list string) s :
  exists s',
    (if (i + batchSize <? length hashes)%nat then delay 500 else ret tt) w s = (Ok tt, s')
    /\ results s' = results s
    /\ fetches (trace s') = fetches (trace s).
Proof.
  destruct (i + batchSize <? length hashes)%nat; eexists; (split; [reflexivity|]).
  - split; [reflexivity|]. simpl. rewrite fetches_app. simpl. apply app_nil_r.
  - split; reflexivity.
Qed.

(** One iteration: it returns, issues exactly the request of its batch,
    touches only the entries of its batch, leaves an entry for each of its
    hashes, and on a failed request these entries are [uncached]. *)
Lemma rd_check_batch_spec hashes i s :
  let batch := slice i (i + batchSize) hashes in
  exists s',
    check_batch this hashes i w s = (Ok tt, s')
    /\ fetches (trace s') = fetches (trace s) ++ [request_of this batch]
    /\ (forall k, k ∉ toLowerCase <$> batch -> results s' !! k = results s !! k)
    /\ (forall h, h ∈ batch -> is_Some (results s' !! toLowerCase h))
    /\ (failed (net w (length (fetches (trace s))) (request_of this batch)) ->
        forall h, h ∈ batch -> results s' !! toLowerCase h = Some uncached).
Proof.
  intros batch. unfold check_batch. fold batch.
  unfold try_catch, bind at 1, fetch.
  destruct (net w (length (fetches (trace s))) (request_of this batch)) as [e|r] eqn:Hnet.
  - rewrite rd_mark_uncached_all. eexists. split; [reflexivity|]. simpl.
    rewrite fetches_app. simpl. repeat split.
    + intros k Hk. by apply mark_all_notin.
    + intros h Hh. rewrite mark_all_in by assumption. eauto.
    + intros _ h Hh. by apply mark_all_in.
  - set (s0 := record (EvFetch (request_of this batch)) s).
    assert (Hf0 : fetches (trace s0) = fetches (trace s) ++ [request_of this batch]).
    { unfold s0. simpl. by rewrite fetches_app. }
    unfold bind at 1, json. destruct (json_body r) as [data|]; simpl.
    + unfold bind at 1. destruct (ok r) eqn:Hok.
      * destruct (forEach_writes (mark_from data) w (rd_mark_from_step data) batch s0)
          as (r' & s1 & Hrun & Htr & Hframe & Hmono & Hall).
        rewrite Hrun. destruct r' as [[]|e].
        -- destruct (rd_pause i hashes s1) as (s2 & Hp & Hres & Hfe).
           rewrite Hp. exists s2. split; [reflexivity|]. rewrite Hres, Hfe, Htr.
           repeat split; try assumption.
           ++ intros h Hh. by apply Hall.
           ++ simpl. congruence.
        -- rewrite rd_mark_uncached_all. eexists. split; [reflexivity|]. simpl.
           rewrite Htr. repeat split; try assumption.
           ++ intros k Hk. rewrite mark_all_notin by assumption. by apply Hframe.
           ++ intros h Hh. rewrite mark_all_in by assumption. eauto.
           ++ intros _ h Hh. by apply mark_all_in.
      * rewrite rd_mark_uncached_all.
        destruct (rd_pause i hashes (mkState (mark_all uncached batch (results s0)) (trace s0)))
          as (s2 & Hp & Hres & Hfe).
        rewrite Hp. exists s2. split; [reflexivity|]. rewrite Hres, Hfe. simpl.
        repeat split; try assumption.
        -- intros k Hk. by apply mark_all_notin.
        -- intros h Hh. rewrite mark_all_in by assumption. eauto.
        -- intros _ h Hh. by apply mark_all_in.
    + rewrite rd_mark_uncached_all. eexists. split; [reflexivity|]. simpl.
      rewrite fetches_app. simpl. repeat split.
      * intros k Hk. by apply mark_all_notin.
      * intros h Hh. rewrite mark_all_in by assumption. eauto.
      * intros _ h Hh. by apply mark_all_in.
Qed.


(** The loop: it returns, issues the requests of the batches in order,
    leaves an entry for every hash of every batch, and a batch whose
    request failed leaves [uncached] for each of its hashes that no later
    batch writes again. *)
Lemma rd_loop_spec hashes : forall fuel i s,
  let bs := batches_from fuel i hashes in
  exists s',
    for_loop fuel i (length hashes) batchSize (check_batch this hashes) w s = (Ok tt, s')
    /\ fetches (trace s') = fetches (trace s) ++ (request_of this <$> bs)
    /\ (forall k, k ∉ toLowerCase <$> concat bs -> results s' !! k = results s !! k)
    /\ (forall h, h ∈ concat bs -> is_Some (results s' !! toLowerCase h))
    /\ (forall n b, bs !! n = Some b ->
         failed (net w (length (fetches (trace s)) + n) (request_of this b)) ->
         forall h, h ∈ b ->
         (forall n' b', (n < n')%nat -> bs !! n' = Some b' ->
                        toLowerCase h ∉ toLowerCase <$> b') ->
         results s' !! toLowerCase h = Some uncached).
Proof.
  induction fuel as [|fuel IH]; intros i s; simpl.
  - exists s. repeat split; try done.
    + by rewrite app_nil_r.
    + intros h Hh. by apply elem_of_nil in Hh.
  - destruct (i <? length hashes)%nat.
    2:{ exists s. repeat split; try done.
        + by rewrite app_nil_r.
        + intros h Hh. by apply elem_of_nil in Hh. }
    unfold bind.
    destruct (rd_check_batch_spec hashes i s) as (s1 & Hb & Hf1 & Hframe1 & Hall1 & Hfail1).
    rewrite Hb.
    destruct (IH (i + batchSize)%nat s1) as (s' & Hl & Hf & Hframe & Hall & Hfail).
    set (batch := slice i (i + batchSize) hashes) in *.
    set (rest := batches_from fuel (i + batchSize) hashes) in *.
    change (concat (batch :: rest)) with (batch ++ concat rest).
    exists s'. split; [assumption|]. split; [|split; [|split]].
    + rewrite Hf, Hf1, <- app_assoc. reflexivity.
    + intros k Hk. rewrite fmap_app, not_elem_of_app in Hk. destruct Hk as [Hk1 Hk2].
      rewrite Hframe by assumption. by apply Hframe1.
    + intros h Hh. apply elem_of_app in Hh as [Hh|Hh]; [|by apply Hall].
      destruct (decide (toLowerCase h ∈ toLowerCase <$> concat rest)) as [Hin|Hin].
      * apply list_elem_of_fmap in Hin as (h' & -> & Hh'). by apply Hall.
      * rewrite Hframe by assumption. by apply Hall1.
    + intros n b Hn Hfailed h Hh Hlater. destruct n as [|n]; simpl in Hn.
      * injection Hn as <-. rewrite Nat.add_0_r in Hfailed.
        rewrite Hframe; [by apply Hfail1|].
        intros Hin. apply list_elem_of_fmap in Hin as (h' & Heq & Hh').
        apply elem_of_concat in Hh' as (b' & Hh' & Hb').
        apply list_elem_of_lookup in Hb' as [n' Hn'].
        apply (Hlater (S n') b'); [lia|exact Hn'|].
        rewrite Heq. apply list_elem_of_fmap. eauto.
      * apply (Hfail n b); try assumption.
        -- rewrite Hf1, length_app. simpl.
           replace (length (fetches (trace s)) + 1 + n)%nat
             with (length (fetches (trace s)) + S n)%nat by lia.
           assumption.
        -- intros n' b' Hlt Hn'. apply (Hlater (S n') b'); [lia|exact Hn'].
Qed.

Lemma rd_batches_concat hashes : forall fuel i,
  (length hashes - i <= fuel)%nat ->
  concat (batches_from fuel i hashes) = drop i hashes.
Proof.
  induction fuel as [|fuel IH]; intros i Hfuel; simpl.
  - symmetry. apply drop_ge. lia.
  - destruct (i <? length hashes)%nat eqn:Hi.
    + apply Nat.ltb_lt in Hi. simpl. rewrite IH by (unfold batchSize; lia).
      unfold slice. replace (i + batchSize - i)%nat with batchSize by lia.
      rewrite <- drop_drop. apply take_drop.
    + apply Nat.ltb_ge in Hi. symmetry. by apply drop_ge.
Qed.

Lemma rd_batches_sizes hashes : forall fuel i b,
  b ∈ batches_from fuel i hashes -> (0 < length b <= batchSize)%nat.
Proof.
  induction fuel as [|fuel IH]; intros i b Hb; simpl in Hb.
  - by apply elem_of_nil in Hb.
  - destruct (i <? length hashes)%nat eqn:Hi; [|by apply elem_of_nil in Hb].
    apply Nat.ltb_lt in Hi. apply elem_of_cons in Hb as [->|Hb]; [|by eapply IH].
    unfold slice. rewrite length_take, length_drop. unfold batchSize. lia.
Qed.

End RealDebridFacts.

(** ** The shape shared by the three [checkCache] methods *)

Lemma get_truthy v k : truthy v = true -> get v k = Ok (field v k).
Proof. unfold field. by destruct v; simpl; try discriminate; repeat case_match. Qed.

Lemma get_opt_total v k : exists x, get_opt v k = Ok x.
Proof. destruct v; simpl; repeat case_match; eauto. Qed.

Lemma own_absent props k : k ∉ props.*1 -> own props k = VUndef.
Proof.
  unfold own. generalize VUndef.
  induction props as [|[k' v] props IH]; simpl; intros found Hk; [reflexivity|].
  apply not_elem_of_cons in Hk as [Hne Hk].
  destruct (String.eqb_spec k' k) as [->|_]; [done|by apply IH].
Qed.

Lemma checkCache_shape w (body : M unit) (hashes : list string)
    (J : gmap string value -> Prop) :
  J ∅ -> preserves w J body -> returns w body ->
  forall s, exists m s',
    (if (length hashes =? 0)%nat then ret ∅ else new_results;; body;; get_results) w s
    = (Ok m, s') /\ J m.
Proof.
  intros H0 Hp Hr s. destruct (length hashes =? 0)%nat.
  - exists ∅, s. by split.
  - unfold bind, new_results, get_results.
    specialize (Hp (mkState ∅ (trace s)) H0). destruct (Hr (mkState ∅ (trace s))) as [[] Ha].
    destruct (body w (mkState ∅ (trace s))) as [[[]|e] s1]; simpl in *; [|discriminate].
    exists (results s1), s1. by split.
Qed.

Lemma preserves_keys_set_result w hashes h v :
  h ∈ hashes -> preserves w (keys_within hashes) (set_result (toLowerCase h) v).
Proof. intros Hh. apply preserves_set_result. intros m. by apply keys_within_insert. Qed.

Lemma preserves_keys_mark_uncached w hashes (l : list string) v :
  (forall h, h ∈ l -> h ∈ hashes) ->
  preserves w (keys_within hashes) (forEach l (fun h => set_result (toLowerCase h) v)).
Proof.
  intros Hl. apply preserves_forEach. intros h Hh.
  apply preserves_keys_set_result. by apply Hl.
Qed.

(** ** Real-Debrid: the whole call *)
Section RealDebridCall.

Import RealDebrid.
Context (w : world) (this : RealDebrid.t).

Lemma rd_check_batch_returns hashes i : returns w (check_batch this hashes i).
Proof.
  intros s. destruct (rd_check_batch_spec w this hashes i s) as (s' & Hrun & _).
  exists tt. by rewrite Hrun.
Qed.

Lemma rd_check_batch_keys hashes i :
  preserves w (keys_within hashes) (check_batch this hashes i).
Proof.
  intros s HJ k Hk.
  destruct (rd_check_batch_spec w this hashes i s) as (s' & Hrun & _ & Hframe & _).
  rewrite Hrun in Hk. simpl in Hk.
  destruct (decide (k ∈ toLowerCase <$> slice i (i + batchSize) hashes)) as [Hin|Hin].
  - apply list_elem_of_fmap in Hin as (h & -> & Hh).
    apply list_elem_of_fmap. exists h. split; [reflexivity|]. by eapply elem_of_slice.
  - rewrite Hframe in Hk by assumption. by apply HJ.
Qed.

Lemma rd_checkCache_keys hashes s :
  exists m s', checkCache this hashes w s = (Ok m, s') /\ keys_within hashes m.
Proof.
  apply checkCache_shape.
  - apply keys_within_empty.
  - apply preserves_for_loop. intros i. apply rd_check_batch_keys.
  - apply returns_for_loop. intros i. apply rd_check_batch_returns.
Qed.

(** The call from a fresh state, in terms of the loop. *)
Lemma rd_checkCache_run hashes :
  hashes <> [] ->
  exists s',
    run w (checkCache this hashes) = (Ok (results s'), s')
    /\ for_loop (length hashes) 0 (length hashes) batchSize (check_batch this hashes)
         w init = (Ok tt, s').
Proof.
  intros Hne. unfold run, checkCache.
  destruct hashes as [|h0 hashes']; [done|]. set (hashes := h0 :: hashes').
  change (length hashes =? 0)%nat with false. cbv iota.
  unfold bind at 1, new_results. change (mkState ∅ (trace init)) with init.
  unfold bind at 1.
  destruct (rd_loop_spec w this hashes (length hashes) 0%nat init) as (s' & Hrun & _).
  change (length (h0 :: hashes')) with (length hashes). rewrite Hrun.
  exists s'. by split.
Qed.

End RealDebridCall.

(** In every world, [RealDebrid.checkCache] returns a map that has an
    entry for every input hash (under its lowercased spelling). *)
Lemma rd_checkCache_entries (w : world) (this : RealDebrid.t) (hashes : list string) :
  total_on hashes (run w (RealDebrid.checkCache this hashes)).
Proof.
  destruct hashes as [|h0 hashes'] eqn:Hh.
  - exists ∅, init. split; [reflexivity|]. intros h Hin. by apply elem_of_nil in Hin.
  - rewrite <- Hh. assert (Hne : hashes <> []) by (by rewrite Hh).
    destruct (rd_checkCache_run w this hashes Hne) as (s' & Hrun & Hloop).
    destruct (rd_loop_spec w this hashes (length hashes) 0%nat init)
      as (s'' & Hloop' & _ & _ & Hall & _).
    rewrite Hloop in Hloop'. injection Hloop' as <-.
    exists (results s'), s'. split; [assumption|].
    intros h Hin. apply Hall.
    rewrite rd_batches_concat by lia. by rewrite drop_0.
Qed.

(** ** Torbox *)
Section TorboxFacts.

Import Torbox.
Context (w : world) (this : Torbox.t).

Lemma tb_mark_from_run inner h s :
  truthy inner = true ->
  mark_from inner h w s
  = (Ok tt, mkState (<[toLowerCase h := tb_entry inner (toLowerCase h)]> (results s))
                    (trace s)).
Proof.
  intros Hinner. unfold mark_from, tb_entry, bind, lift. cbv beta.
  rewrite (get_truthy _ _ Hinner).
  destruct (get_opt_total (field inner (toLowerCase h)) "files") as [f Hf].
  rewrite Hf. reflexivity.
Qed.

Lemma tb_mark_from_keys hashes inner h :
  h ∈ hashes -> preserves w (keys_within hashes) (mark_from inner h).
Proof.
  intros Hh. unfold mark_from.
  apply preserves_bind; [apply preserves_lift|]. intros cacheInfo.
  apply preserves_bind; [apply preserves_lift|]. intros files.
  by apply preserves_keys_set_result.
Qed.

Lemma tb_checkCache_keys hashes s :
  exists m s', checkCache this hashes w s = (Ok m, s') /\ keys_within hashes m.
Proof.
  apply checkCache_shape.
  - apply keys_within_empty.
  - apply preserves_try_catch.
    + apply preserves_bind; [apply preserves_fetch|]. intros response.
      apply preserves_bind.
      { destruct (negb (ok response)); [apply preserves_throw|apply preserves_ret]. }
      intros _. apply preserves_bind; [apply preserves_json|]. intros data.
      apply preserves_bind; [apply preserves_lift|]. intros success.
      apply preserves_bind.
      { destruct (truthy success); [apply preserves_lift|apply preserves_ret]. }
      intros inner. destruct (truthy inner); [|apply preserves_ret].
      apply preserves_forEach. intros h Hh. by apply tb_mark_from_keys.
    + intros _. by apply preserves_keys_mark_uncached.
  - apply returns_try_catch. intros _. apply returns_forEach.
    intros h. apply returns_set_result.
Qed.

Lemma tb_mark_uncached_all hashes s :
  forEach hashes mark_uncached w s
  = (Ok tt, mkState (mark_all uncached hashes (results s)) (trace s)).
Proof. apply forEach_set_result. Qed.

(** The first request failed: every hash is written [uncached]. *)
Lemma tb_failed_run hashes :
  hashes <> [] ->
  failed (net w 0 (request_of this hashes)) ->
  run w (checkCache this hashes)
  = (Ok (mark_all uncached hashes ∅),
     mkState (mark_all uncached hashes ∅) [EvFetch (request_of this hashes)]).
Proof.
  intros Hne Hfail. unfold run, checkCache.
  destruct hashes as [|h0 hashes']; [done|]. set (hashes := h0 :: hashes') in *.
  change (length hashes =? 0)%nat with false. cbv iota.
  unfold bind at 1, new_results. change (mkState ∅ (trace init)) with init.
  unfold bind at 1, try_catch, bind at 1, fetch.
  change (length (fetches (trace init))) with 0%nat.
  destruct (net w 0 (request_of this hashes)) as [e|r]; simpl in Hfail.
  - rewrite tb_mark_uncached_all. reflexivity.
  - unfold bind at 1. rewrite Hfail. cbn [negb]. cbv beta iota.
    unfold throw at 1. cbv beta iota. rewrite tb_mark_uncached_all. reflexivity.
Qed.

(** A 2xx answer with a truthy [success] and a truthy [data]: every hash
    is written its [tb_entry]. *)
Lemma tb_success_run hashes r data success inner :
  hashes <> [] ->
  net w 0 (request_of this hashes) = Responds r ->
  ok r = true ->
  json_body r = Some data ->
  get data "success" = Ok success -> truthy success = true ->
  get data "data" = Ok inner -> truthy inner = true ->
  run w (checkCache this hashes)
  = (Ok (write_all (tb_entry inner) hashes ∅),
     mkState (write_all (tb_entry inner) hashes ∅) [EvFetch (request_of this hashes)]).
Proof.
  intros Hne Hnet Hok Hjson Hs Hst Hd Hit. unfold run, checkCache.
  destruct hashes as [|h0 hashes']; [done|]. set (hashes := h0 :: hashes') in *.
  change (length hashes =? 0)%nat with false. cbv iota.
  unfold bind at 1, new_results. change (mkState ∅ (trace init)) with init.
  unfold bind at 1, try_catch, bind at 1, fetch.
  change (length (fetches (trace init))) with 0%nat. rewrite Hnet.
  unfold bind at 1. rewrite Hok. cbn [negb]. cbv beta iota. unfold ret at 1.
  unfold bind at 1, json. rewrite Hjson. unfold ret at 1.
  unfold bind at 1, lift at 1. rewrite Hs.
  unfold bind at 1. rewrite Hst. unfold lift at 1. rewrite Hd. rewrite Hit.
  rewrite (forEach_write_all (mark_from inner) (tb_entry inner) w
             (fun h s => tb_mark_from_run inner h s Hit)).
  reflexivity.
Qed.

(** A 2xx answer whose [success] flag is falsy: nothing is written. *)
Lemma tb_unsuccessful_run hashes r data success :
  hashes <> [] ->
  net w 0 (request_of this hashes) = Responds r ->
  ok r = true ->
  json_body r = Some data ->
  get data "success" = Ok success -> truthy success = false ->
  run w (checkCache this hashes)
  = (Ok ∅, mkState ∅ [EvFetch (request_of this hashes)]).
Proof.
  intros Hne Hnet Hok Hjson Hs Hst. unfold run, checkCache.
  destruct hashes as [|h0 hashes']; [done|]. set (hashes := h0 :: hashes') in *.
  change (length hashes =? 0)%nat with false. cbv iota.
  unfold bind at 1, new_results. change (mkState ∅ (trace init)) with init.
  unfold bind at 1, try_catch, bind at 1, fetch.
  change (length (fetches (trace init))) with 0%nat. rewrite Hnet.
  unfold bind at 1. rewrite Hok. cbn [negb]. cbv beta iota. unfold ret at 1.
  unfold bind at 1, json. rewrite Hjson. unfold ret at 1.
  unfold bind at 1, lift at 1. rewrite Hs.
  unfold bind at 1. rewrite Hst. unfold ret at 1. rewrite Hst. reflexivity.
Qed.

End TorboxFacts.

(** ** AllDebrid *)
Section AllDebridFacts.

Import AllDebrid.
Context (w : world) (this : AllDebrid.t).

Lemma get_readable v k : readable v -> get v k = Ok (field v k).
Proof. intros [H1 H2]. unfold field. destruct v; simpl; try done; repeat case_match; done. Qed.

Lemma write_zip_other : forall hashes magnets (m : gmap string value) k,
  (forall j h, (j < length magnets)%nat -> hashes !! j = Some h -> toLowerCase h <> k) ->
  write_zip hashes magnets m !! k = m !! k.
Proof.
  induction hashes as [|h hashes IH]; intros magnets m k Hno; [reflexivity|].
  destruct magnets as [|mg magnets]; [reflexivity|].
  unfold write_zip in *. simpl. rewrite IH.
  - apply lookup_insert_ne. apply (Hno 0%nat h); [simpl; lia|reflexivity].
  - intros j h' Hj Hh'. apply (Hno (S j) h'); [simpl; lia|exact Hh'].
Qed.

Lemma write_zip_lookup : forall hashes magnets (m : gmap string value) i h mg,
  hashes !! i = Some h -> magnets !! i = Some mg ->
  (forall j h', (i < j)%nat -> (j < length magnets)%nat -> hashes !! j = Some h' ->
                toLowerCase h' <> toLowerCase h) ->
  write_zip hashes magnets m !! toLowerCase h = Some (ad_entry mg).
Proof.
  induction hashes as [|h0 hashes IH]; intros magnets m i h mg Hh Hmg Hlater;
    [by rewrite lookup_nil in Hh|].
  destruct magnets as [|mg0 magnets]; [by rewrite lookup_nil in Hmg|].
  destruct i as [|i]; simpl in Hh, Hmg.
  - injection Hh as ->. injection Hmg as ->.
    change (write_zip (h :: hashes) (mg :: magnets) m)
      with (write_zip hashes magnets (<[toLowerCase h := ad_entry mg]> m)).
    rewrite write_zip_other; [apply lookup_insert_eq|].
    intros j h' Hj Hh'. apply (Hlater (S j) h'); [lia|simpl; lia|exact Hh'].
  - change (write_zip (h0 :: hashes) (mg0 :: magnets) m)
      with (write_zip hashes magnets (<[toLowerCase h0 := ad_entry mg0]> m)).
    apply (IH magnets _ i h mg Hh Hmg).
    intros j h' Hlt Hj Hh'. apply (Hlater (S j) h'); [lia|simpl; lia|exact Hh'].
Qed.

Lemma ad_mark_from_run hashes magnet index h s :
  hashes !! index = Some h -> readable magnet ->
  mark_from hashes magnet index w s
  = (Ok tt, mkState (<[toLowerCase h := ad_entry magnet]> (results s)) (trace s)).
Proof.
  intros Hh Hr. unfold mark_from. rewrite Hh. unfold bind, lift. cbv beta.
  rewrite !(get_readable _ _ Hr). reflexivity.
Qed.

Lemma ad_forEach_run hashes : forall magnets i s,
  Forall readable magnets ->
  (i + length magnets <= length hashes)%nat ->
  forEachIndexed i magnets (mark_from hashes) w s
  = (Ok tt, mkState (write_zip (drop i hashes) magnets (results s)) (trace s)).
Proof.
  induction magnets as [|mg magnets IH]; intros i s Hall Hlen.
  - simpl. unfold write_zip. rewrite zip_with_nil_r. by destruct s.
  - apply Forall_cons in Hall as [Hmg Hall]. simpl in Hlen.
    destruct (lookup_lt_is_Some_2 hashes i) as [h Hh]; [lia|].
    simpl. unfold bind at 1. rewrite (ad_mark_from_run hashes mg i h s Hh Hmg).
    rewrite IH by (try assumption; lia). simpl.
    rewrite (drop_S hashes h i Hh). reflexivity.
Qed.

Lemma ad_mark_uncached_all hashes s :
  forEach hashes mark_uncached w s
  = (Ok tt, mkState (mark_all uncached hashes (results s)) (trace s)).
Proof. apply forEach_set_result. Qed.

Lemma ad_mark_from_keys hashes magnet index :
  preserves w (keys_within hashes) (mark_from hashes magnet index).
Proof.
  unfold mark_from. destruct (hashes !! index) as [h|] eqn:Hh; [|apply preserves_throw].
  apply preserves_bind; [apply preserves_lift|]. intros instant.
  apply preserves_bind; [apply preserves_lift|]. intros files.
  apply preserves_keys_set_result. by eapply list_elem_of_lookup_2.
Qed.

Lemma ad_checkCache_keys hashes s :
  exists m s', checkCache this hashes w s = (Ok m, s') /\ keys_within hashes m.
Proof.
  apply checkCache_shape.
  - apply keys_within_empty.
  - apply preserves_try_catch.
    + apply preserves_bind; [apply preserves_fetch|]. intros response.
      apply preserves_bind.
      { destruct (negb (ok response)); [apply preserves_throw|apply preserves_ret]. }
      intros _. apply preserves_bind; [apply preserves_json|]. intros data.
      apply preserves_bind; [apply preserves_lift|]. intros st.
      apply preserves_bind.
      { destruct (strict_eq_str st "success"); [apply preserves_lift|apply preserves_ret]. }
      intros inner. apply preserves_bind.
      { destruct (truthy inner); [apply preserves_lift|apply preserves_ret]. }
      intros magnets. destruct (truthy magnets); [|apply preserves_ret].
      unfold forEach_magnets. destruct magnets; try apply preserves_throw.
      apply preserves_forEachIndexed. intros x i. apply ad_mark_from_keys.
    + intros _. by apply preserves_keys_mark_uncached.
  - apply returns_try_catch. intros _. apply returns_forEach.
    intros h. apply returns_set_result.
Qed.

(** The request failed: every hash is written [uncached]. *)
Lemma ad_failed_run hashes :
  hashes <> [] ->
  failed (net w 0 (request_of this hashes)) ->
  run w (checkCache this hashes)
  = (Ok (mark_all uncached hashes ∅),
     mkState (mark_all uncached hashes ∅) [EvFetch (request_of this hashes)]).
Proof.
  intros Hne Hfail. unfold run, checkCache.
  destruct hashes as [|h0 hashes']; [done|]. set (hashes := h0 :: hashes') in *.
  change (length hashes =? 0)%nat with false. cbv iota.
  unfold bind at 1, new_results. change (mkState ∅ (trace init)) with init.
  unfold bind at 1, try_catch, bind at 1, fetch.
  change (length (fetches (trace init))) with 0%nat.
  destruct (net w 0 (request_of this hashes)) as [e|r]; simpl in Hfail.
  - rewrite ad_mark_uncached_all. reflexivity.
  - unfold bind at 1. rewrite Hfail. cbn [negb]. cbv beta iota.
    unfold throw at 1. cbv beta iota. rewrite ad_mark_uncached_all. reflexivity.
Qed.

(** A 2xx answer with status ['success'] and an array of readable
    elements no longer than the input: the entries are those of the
    pairing by position. *)
Lemma ad_success_run hashes r data inner magnets :
  hashes <> [] ->
  net w 0 (request_of this hashes) = Responds r ->
  ok r = true ->
  json_body r = Some data ->
  get data "status" = Ok (VStr "success") ->
  get data "data" = Ok inner -> truthy inner = true ->
  get inner "magnets" = Ok (VArr magnets) ->
  Forall readable magnets ->
  (length magnets <= length hashes)%nat ->
  run w (checkCache this hashes)
  = (Ok (write_zip hashes magnets ∅),
     mkState (write_zip hashes magnets ∅) [EvFetch (request_of this hashes)]).
Proof.
  intros Hne Hnet Hok Hjson Hst Hd Hit Hm Hall Hlen. unfold run, checkCache.
  destruct hashes as [|h0 hashes']; [done|]. set (hashes := h0 :: hashes') in *.
  change (length hashes =? 0)%nat with false. cbv iota.
  unfold bind at 1, new_results. change (mkState ∅ (trace init)) with init.
  unfold bind at 1, try_catch, bind at 1, fetch.
  change (length (fetches (trace init))) with 0%nat. rewrite Hnet.
  unfold bind at 1. rewrite Hok. cbn [negb]. cbv beta iota. unfold ret at 1.
  unfold bind at 1, json. rewrite Hjson. unfold ret at 1.
  unfold bind at 1, lift at 1. rewrite Hst.
  unfold bind at 1. change (strict_eq_str (VStr "success") "success") with true.
  cbv beta iota. unfold lift at 1. rewrite Hd.
  unfold bind at 1. rewrite Hit. unfold lift at 1. rewrite Hm.
  change (truthy (VArr magnets)) with true. cbv beta iota.
  unfold forEach_magnets. rewrite ad_forEach_run by (try assumption; simpl; lia).
  reflexivity.
Qed.

End AllDebridFacts.

(** ** AllDebrid: answers that cover the input, answers that say no *)
Section AllDebridMore.

Import AllDebrid.
Context (w : world) (this : AllDebrid.t).

Lemma write_zip_mono : forall hashes magnets (m : gmap string value) k,
  is_Some (m !! k) -> is_Some (write_zip hashes magnets m !! k).
Proof.
  induction hashes as [|h hashes IH]; intros magnets m k Hk; [exact Hk|].
  destruct magnets as [|mg magnets]; [exact Hk|].
  change (write_zip (h :: hashes) (mg :: magnets) m)
    with (write_zip hashes magnets (<[toLowerCase h := ad_entry mg]> m)).
  apply IH. destruct (decide (toLowerCase h = k)) as [->|Hne].
  - rewrite lookup_insert_eq. eauto.
  - by rewrite lookup_insert_ne.
Qed.

Lemma write_zip_total : forall hashes magnets (m : gmap string value) h,
  (length hashes <= length magnets)%nat -> h ∈ hashes ->
  is_Some (write_zip hashes magnets m !! toLowerCase h).
Proof.
  induction hashes as [|h0 hashes IH]; intros magnets m h Hlen Hh;
    [by apply elem_of_nil in Hh|].
  destruct magnets as [|mg magnets]; [simpl in Hlen; lia|].
  change (write_zip (h0 :: hashes) (mg :: magnets) m)
    with (write_zip hashes magnets (<[toLowerCase h0 := ad_entry mg]> m)).
  apply elem_of_cons in Hh as [->|Hh].
  - apply write_zip_mono. rewrite lookup_insert_eq. eauto.
  - apply IH; [simpl in Hlen; lia|exact Hh].
Qed.

(** A 2xx answer whose [status] is not ['success']: nothing is written. *)
Lemma ad_unsuccessful_run hashes r data st :
  hashes <> [] ->
  net w 0 (request_of this hashes) = Responds r ->
  ok r = true ->
  json_body r = Some data ->
  get data "status" = Ok st -> strict_eq_str st "success" = false ->
  run w (checkCache this hashes)
  = (Ok ∅, mkState ∅ [EvFetch (request_of this hashes)]).
Proof.
  intros Hne Hnet Hok Hjson Hs Hst. unfold run, checkCache.
  destruct hashes as [|h0 hashes']; [done|]. set (hashes := h0 :: hashes') in *.
  change (length hashes =? 0)%nat with false. cbv iota.
  unfold bind at 1, new_results. change (mkState ∅ (trace init)) with init.
  unfold bind at 1, try_catch, bind at 1, fetch.
  change (length (fetches (trace init))) with 0%nat. rewrite Hnet.
  unfold bind at 1. rewrite Hok. cbn [negb]. cbv beta iota. unfold ret at 1.
  unfold bind at 1, json. rewrite Hjson. unfold ret at 1.
  unfold bind at 1, lift at 1. rewrite Hs.
  unfold bind at 1. rewrite Hst. reflexivity.
Qed.

End AllDebridMore.

(** ** The identifier lookups *)
Section IdConverterFacts.

Import IdConverter.
Context (w : world).

Lemma has_results_cons x l s : has_results (VArr (x :: l)) w s = (Ok true, s).
Proof. reflexivity. Qed.

Lemma has_results_no_match v s : no_match v -> has_results v w s = (Ok false, s).
Proof. intros [H| ->]; unfold has_results; [by rewrite H|reflexivity]. Qed.

Lemma first_field_cons x l k s :
  first_field (VArr (x :: l)) k w s = (get x k, s).
Proof. reflexivity. Qed.

Lemma startsWith_tt_truthy id : startsWith id "tt" = true -> truthy (VStr id) = true.
Proof. by destruct id. Qed.

(** [imdbToTmdb] up to the parsed answer of a 2xx response. *)
Lemma imdbToTmdb_answer id r data (k : value -> M value) :
  startsWith id "tt" = true ->
  net w 0 (find_request id) = Responds r ->
  ok r = true ->
  json_body r = Some data ->
  run w (try_catch
           (response <- fetch (find_request id);;
            if negb (ok response) then ret (conversion VNull VNull)
            else data <- json response;; k data)
           (fun _ => ret (conversion VNull VNull)))
  = try_catch (k data) (fun _ => ret (conversion VNull VNull)) w
      (mkState ∅ [EvFetch (find_request id)]).
Proof.
  intros Htt Hnet Hok Hjson. unfold run, try_catch, bind at 1, fetch.
  change (length (fetches (trace init))) with 0%nat. rewrite Hnet, Hok.
  cbn [negb]. cbv beta iota. unfold bind at 1, json. rewrite Hjson. reflexivity.
Qed.

Lemma imdbToTmdb_unfold id :
  startsWith id "tt" = true ->
  imdbToTmdb (Some id)
  = try_catch
      (response <- fetch (find_request id);;
       if negb (ok response) then ret (conversion VNull VNull)
       else
         data <- json response;;
         movie_results <- lift (get data "movie_results");;
         movie <- has_results movie_results;;
         if movie then
           tmdbId <- first_field movie_results "id";;
           ret (conversion tmdbId (VStr "movie"))
         else
           tv_results <- lift (get data "tv_results");;
           tv <- has_results tv_results;;
           if tv then
             tmdbId <- first_field tv_results "id";;
             ret (conversion tmdbId (VStr "series"))
           else
             tv_episode_results <- lift (get data "tv_episode_results");;
             episode <- has_results tv_episode_results;;
             if episode then
               tmdbId <- first_field tv_episode_results "show_id";;
               ret (conversion tmdbId (VStr "series"))
             else ret (conversion VNull VNull))
      (fun _ => ret (conversion VNull VNull)).
Proof.
  intros Htt. unfold imdbToTmdb. rewrite Htt, (startsWith_tt_truthy _ Htt). reflexivity.
Qed.

Lemma imdbToTmdb_movie id r data m rest v :
  startsWith id "tt" = true ->
  net w 0 (find_request id) = Responds r -> ok r = true -> json_body r = Some data ->
  get data "movie_results" = Ok (VArr (m :: rest)) ->
  get m "id" = Ok v ->
  run w (imdbToTmdb (Some id))
  = (Ok (conversion v (VStr "movie")), mkState ∅ [EvFetch (find_request id)]).
Proof.
  intros Htt Hnet Hok Hjson Hmr Hid.
  rewrite (imdbToTmdb_unfold _ Htt), (imdbToTmdb_answer _ _ _ _ Htt Hnet Hok Hjson).
  unfold try_catch, bind at 1, lift at 1. rewrite Hmr.
  unfold bind at 1. rewrite has_results_cons.
  unfold bind at 1. rewrite first_field_cons, Hid. reflexivity.
Qed.

Lemma imdbToTmdb_tv id r data mr m rest v :
  startsWith id "tt" = true ->
  net w 0 (find_request id) = Responds r -> ok r = true -> json_body r = Some data ->
  get data "movie_results" = Ok mr -> no_match mr ->
  get data "tv_results" = Ok (VArr (m :: rest)) ->
  get m "id" = Ok v ->
  run w (imdbToTmdb (Some id))
  = (Ok (conversion v (VStr "series")), mkState ∅ [EvFetch (find_request id)]).
Proof.
  intros Htt Hnet Hok Hjson Hmr Hno Htv Hid.
  rewrite (imdbToTmdb_unfold _ Htt), (imdbToTmdb_answer _ _ _ _ Htt Hnet Hok Hjson).
  unfold try_catch, bind at 1, lift at 1. rewrite Hmr.
  unfold bind at 1. rewrite (has_results_no_match _ _ Hno).
  unfold bind at 1, lift at 1. rewrite Htv.
  unfold bind at 1. rewrite has_results_cons.
  unfold bind at 1. rewrite first_field_cons, Hid. reflexivity.
Qed.

Lemma imdbToTmdb_episode id r data mr tr m rest v :
  startsWith id "tt" = true ->
  net w 0 (find_request id) = Responds r -> ok r = true -> json_body r = Some data ->
  get data "movie_results" = Ok mr -> no_match mr ->
  get data "tv_results" = Ok tr -> no_match tr ->
  get data "tv_episode_results" = Ok (VArr (m :: rest)) ->
  get m "show_id" = Ok v ->
  run w (imdbToTmdb (Some id))
  = (Ok (conversion v (VStr "series")), mkState ∅ [EvFetch (find_request id)]).
Proof.
  intros Htt Hnet Hok Hjson Hmr Hno Htv Hno' Hep Hid.
  rewrite (imdbToTmdb_unfold _ Htt), (imdbToTmdb_answer _ _ _ _ Htt Hnet Hok Hjson).
  unfold try_catch, bind at 1, lift at 1. rewrite Hmr.
  unfold bind at 1. rewrite (has_results_no_match _ _ Hno).
  unfold bind at 1, lift at 1. rewrite Htv.
  unfold bind at 1. rewrite (has_results_no_match _ _ Hno').
  unfold bind at 1, lift at 1. rewrite Hep.
  unfold bind at 1. rewrite has_results_cons.
  unfold bind at 1. rewrite first_field_cons, Hid. reflexivity.
Qed.

Lemma imdbToTmdb_none id r data mr tr er :
  startsWith id "tt" = true ->
  net w 0 (find_request id) = Responds r -> ok r = true -> json_body r = Some data ->
  get data "movie_results" = Ok mr -> no_match mr ->
  get data "tv_results" = Ok tr -> no_match tr ->
  get data "tv_episode_results" = Ok er -> no_match er ->
  run w (imdbToTmdb (Some id))
  = (Ok (conversion VNull VNull), mkState ∅ [EvFetch (find_request id)]).
Proof.
  intros Htt Hnet Hok Hjson Hmr Hno Htv Hno' Hep Hno''.
  rewrite (imdbToTmdb_unfold _ Htt), (imdbToTmdb_answer _ _ _ _ Htt Hnet Hok Hjson).
  unfold try_catch, bind at 1, lift at 1. rewrite Hmr.
  unfold bind at 1. rewrite (has_results_no_match _ _ Hno).
  unfold bind at 1, lift at 1. rewrite Htv.
  unfold bind at 1. rewrite (has_results_no_match _ _ Hno').
  unfold bind at 1, lift at 1. rewrite Hep.
  unfold bind at 1. rewrite (has_results_no_match _ _ Hno''). reflexivity.
Qed.

Lemma tmdbToImdb_found n ty r data ext imdb :
  n <> 0 -> ty <> "" ->
  let mediaType := if String.eqb ty "series" then "tv" else "movie" in
  net w 0 (details_request mediaType n) = Responds r -> ok r = true ->
  json_body r = Some data ->
  get data "external_ids" = Ok ext -> truthy ext = true ->
  get ext "imdb_id" = Ok imdb -> truthy imdb = true ->
  run w (tmdbToImdb (Some n) (Some ty))
  = (Ok imdb, mkState ∅ [EvFetch (details_request mediaType n)]).
Proof.
  intros Hn Hty mediaType Hnet Hok Hjson Hext Het Himdb Hit. subst mediaType.
  assert (Hguard : negb (truthy (VNum n)) || negb (truthy (VStr ty)) = false).
  { simpl. destruct (Z.eqb_spec n 0) as [|_]; [done|].
    by destruct (String.eqb_spec ty "") as [|_]. }
  unfold run, tmdbToImdb. rewrite Hguard.
  unfold strict_eq_str. cbv zeta.
  unfold try_catch, bind at 1, fetch.
  change (length (fetches (trace init))) with 0%nat. rewrite Hnet, Hok.
  cbn [negb]. cbv beta iota. unfold bind at 1, json. rewrite Hjson. unfold ret at 1.
  unfold bind at 1, lift at 1. rewrite Hext, Het.
  unfold bind at 1, lift at 1. rewrite Himdb, Hit. reflexivity.
Qed.

End IdConverterFacts.

(** * The claims *)

(** ** C1 *)

(** A 2xx answer whose body says [status: "error"] (AllDebrid) or
    [success: false] (Torbox): the call returns the empty object. *)
Lemma unsuccessful_flag_runs :
  run (answers (fun _ => ok_json (VObj [("status", VStr "error")])))
      (AllDebrid.checkCache (AllDebrid.new "ad-key") [sample_hash])
  = (Ok ∅, mkState ∅ [EvFetch (AllDebrid.request_of (AllDebrid.new "ad-key") [sample_hash])])
  /\ run (answers (fun _ => ok_json (VObj [("success", VBool false); ("data", VNull)])))
         (Torbox.checkCache (Torbox.new "tb-key") [sample_hash])
     = (Ok ∅, mkState ∅ [EvFetch (Torbox.request_of (Torbox.new "tb-key") [sample_hash])]).
Proof. split; reflexivity. Qed.

(** AllDebrid answers 200 with [{ status: "error" }]: the map returned is
    empty, and the input hash is not a key of it. *)
Lemma C1_counterexample : ~ checkCache_total_claim.
Proof.
  intros H.
  destruct (H (answers (fun _ => ok_json (VObj [("status", VStr "error")])))
              [sample_hash] ltac:(done)) as (_ & _ & Had).
  destruct (Had (AllDebrid.new "ad-key")) as (m & s' & Hrun & Hall).
  rewrite (proj1 unsuccessful_flag_runs) in Hrun. injection Hrun as <- _.
  destruct (Hall sample_hash ltac:(left)) as [v Hv].
  by rewrite lookup_empty in Hv.
Qed.

(** C1, amended. For a non-empty input every client returns a map and
    never raises. Every input hash is a key of it (lowercased): for
    Real-Debrid in every outcome; for Torbox and AllDebrid when the
    request fails (non-2xx answer or transport error) and on a successful
    answer that covers the input (Torbox: truthy [success] and [data];
    AllDebrid: status ['success'] and one readable element per input
    hash). On a 2xx answer whose [success]/[status] flag is not
    successful Torbox and AllDebrid return the empty map. *)
Theorem C1_every_hash_is_a_key_where_answered (w : world) (hashes : list string) :
  hashes <> [] ->
  (forall this, total_on hashes (run w (RealDebrid.checkCache this hashes)))
  /\ (forall this,
        (exists m s', run w (Torbox.checkCache this hashes) = (Ok m, s'))
        /\ (failed (net w 0 (Torbox.request_of this hashes)) ->
            total_on hashes (run w (Torbox.checkCache this hashes)))
        /\ (forall r data success,
              net w 0 (Torbox.request_of this hashes) = Responds r -> ok r = true ->
              json_body r = Some data -> get data "success" = Ok success ->
              (forall inner,
                 truthy success = true -> get data "data" = Ok inner ->
                 truthy inner = true ->
                 total_on hashes (run w (Torbox.checkCache this hashes)))
              /\ (truthy success = false ->
                  fst (run w (Torbox.checkCache this hashes)) = Ok ∅)))
  /\ (forall this,
        (exists m s', run w (AllDebrid.checkCache this hashes) = (Ok m, s'))
        /\ (failed (net w 0 (AllDebrid.request_of this hashes)) ->
            total_on hashes (run w (AllDebrid.checkCache this hashes)))
        /\ (forall r data st,
              net w 0 (AllDebrid.request_of this hashes) = Responds r -> ok r = true ->
              json_body r = Some data -> get data "status" = Ok st ->
              (forall inner magnets,
                 st = VStr "success" -> get data "data" = Ok inner ->
                 truthy inner = true -> get inner "magnets" = Ok (VArr magnets) ->
                 Forall readable magnets -> length magnets = length hashes ->
                 total_on hashes (run w (AllDebrid.checkCache this hashes)))
              /\ (strict_eq_str st "success" = false ->
                  fst (run w (AllDebrid.checkCache this hashes)) = Ok ∅))).
Proof.
  intros Hne. split; [|split].
  - intros this. apply rd_checkCache_entries.
  - intros this. split; [|split].
    + destruct (tb_checkCache_keys w this hashes init) as (m & s' & Hrun & _). eauto.
    + intros Hfail. rewrite (tb_failed_run w this hashes Hne Hfail).
      eexists _, _. split; [reflexivity|]. intros h Hh.
      rewrite mark_all_in by assumption. eauto.
    + intros r data success Hnet Hok Hjson Hs. split.
      * intros inner Hst Hd Hit.
        rewrite (tb_success_run w this hashes r data success inner
                   Hne Hnet Hok Hjson Hs Hst Hd Hit).
        eexists _, _. split; [reflexivity|]. intros h Hh.
        rewrite write_all_in by assumption. eauto.
      * intros Hst.
        by rewrite (tb_unsuccessful_run w this hashes r data success
                      Hne Hnet Hok Hjson Hs Hst).
  - intros this. split; [|split].
    + destruct (ad_checkCache_keys w this hashes init) as (m & s' & Hrun & _). eauto.
    + intros Hfail. rewrite (ad_failed_run w this hashes Hne Hfail).
      eexists _, _. split; [reflexivity|]. intros h Hh.
      rewrite mark_all_in by assumption. eauto.
    + intros r data st Hnet Hok Hjson Hs. split.
      * intros inner magnets -> Hd Hit Hm Hall Hlen.
        rewrite (ad_success_run w this hashes r data inner magnets
                   Hne Hnet Hok Hjson Hs Hd Hit Hm Hall ltac:(lia)).
        eexists _, _. split; [reflexivity|]. intros h Hh.
        apply write_zip_total; [lia|exact Hh].
      * intros Hst.
        by rewrite (ad_unsuccessful_run w this hashes r data st
                      Hne Hnet Hok Hjson Hs Hst).
Qed.

(** Runs of C1, amended: Real-Debrid answered 500 with no JSON body,
    Torbox answering for one of two hashes, AllDebrid answering
    [{ status: "error" }]. *)
Lemma C1_witness :
  total_on [sample_hash; other_hash]
    (run (answers (fun _ => Responds (mkResponse 500 None)))
         (RealDebrid.checkCache (RealDebrid.new "rd-key") [sample_hash; other_hash]))
  /\ total_on [sample_hash; other_hash]
       (run (answers (fun _ => ok_json
               (VObj [("success", VBool true);
                      ("data", VObj [(sample_key, VObj [])])])))
            (Torbox.checkCache (Torbox.new "tb-key") [sample_hash; other_hash]))
  /\ fst (run (answers (fun _ => ok_json (VObj [("status", VStr "error")])))
              (AllDebrid.checkCache (AllDebrid.new "ad-key") [sample_hash; other_hash]))
     = Ok ∅.
Proof.
  split; [|split].
  - exact (proj1 (C1_every_hash_is_a_key_where_answered
                    (answers (fun _ => Responds (mkResponse 500 None)))
                    [sample_hash; other_hash] ltac:(done))
                 (RealDebrid.new "rd-key")).
  - destruct (C1_every_hash_is_a_key_where_answered
                (answers (fun _ => ok_json
                   (VObj [("success", VBool true);
                          ("data", VObj [(sample_key, VObj [])])])))
                [sample_hash; other_hash] ltac:(done)) as (_ & Htb & _).
    destruct (Htb (Torbox.new "tb-key")) as (_ & _ & Hok).
    exact (proj1 (Hok _ _ _ eq_refl eq_refl eq_refl eq_refl) _ eq_refl eq_refl eq_refl).
  - destruct (C1_every_hash_is_a_key_where_answered
                (answers (fun _ => ok_json (VObj [("status", VStr "error")])))
                [sample_hash; other_hash] ltac:(done)) as (_ & _ & Had).
    destruct (Had (AllDebrid.new "ad-key")) as (_ & _ & Hok).
    exact (proj2 (Hok _ _ _ eq_refl eq_refl eq_refl eq_refl) eq_refl).
Defined.

(** ** C2 *)

(** C2. When a [checkCache] request gets a non-2xx answer or the
    transport throws, the call does not raise and writes
    [{ cached: false }] with an empty [variants]/[files] list: for
    Real-Debrid for every hash of the batch concerned, when the iteration
    of that batch ends and in the map returned (an entry stays so unless
    a later batch holds the same hash and writes it again), for Torbox
    and AllDebrid for the whole input. For Real-Debrid the batches make
    up the whole input and every one of them is still requested, in
    order, whatever happened to the others. *)
Theorem C2_failed_request_degrades_to_uncached (w : world) (hashes : list string) :
  (get RealDebrid.uncached "cached" = Ok (VBool false)
   /\ get RealDebrid.uncached "variants" = Ok (VArr [])
   /\ get Torbox.uncached "cached" = Ok (VBool false)
   /\ get Torbox.uncached "files" = Ok (VArr [])
   /\ get AllDebrid.uncached "cached" = Ok (VBool false)
   /\ get AllDebrid.uncached "files" = Ok (VArr []))
  /\ (forall this i s,
        let batch := RealDebrid.slice i (i + RealDebrid.batchSize) hashes in
        failed (net w (length (fetches (trace s))) (RealDebrid.request_of this batch)) ->
        exists s',
          RealDebrid.check_batch this hashes i w s = (Ok tt, s')
          /\ forall h, h ∈ batch -> results s' !! toLowerCase h = Some RealDebrid.uncached)
  /\ concat (RealDebrid.batches hashes) = hashes
  /\ (forall this, exists m s',
        run w (RealDebrid.checkCache this hashes) = (Ok m, s')
        /\ fetches (trace s') = RealDebrid.request_of this <$> RealDebrid.batches hashes
        /\ forall n b,
             RealDebrid.batches hashes !! n = Some b ->
             failed (net w n (RealDebrid.request_of this b)) ->
             forall h, h ∈ b ->
             (forall n' b', (n < n')%nat -> RealDebrid.batches hashes !! n' = Some b' ->
                            toLowerCase h ∉ toLowerCase <$> b') ->
             m !! toLowerCase h = Some RealDebrid.uncached)
  /\ (forall this,
        hashes <> [] ->
        failed (net w 0 (Torbox.request_of this hashes)) ->
        exists m s',
          run w (Torbox.checkCache this hashes) = (Ok m, s')
          /\ forall h, h ∈ hashes -> m !! toLowerCase h = Some Torbox.uncached)
  /\ (forall this,
        hashes <> [] ->
        failed (net w 0 (AllDebrid.request_of this hashes)) ->
        exists m s',
          run w (AllDebrid.checkCache this hashes) = (Ok m, s')
          /\ forall h, h ∈ hashes -> m !! toLowerCase h = Some AllDebrid.uncached).
Proof.
  split; [repeat split|]. split; [|split; [|split; [|split]]].
  - intros this i s batch Hfailed.
    destruct (rd_check_batch_spec w this hashes i s) as (s' & Hrun & _ & _ & _ & Hfail).
    exists s'. split; [exact Hrun|]. by apply Hfail.
  - unfold RealDebrid.batches. rewrite rd_batches_concat by lia. apply drop_0.
  - intros this. destruct hashes as [|h0 hashes'] eqn:Hh.
    + exists ∅, init. repeat split; done.
    + rewrite <- Hh. assert (Hne : hashes <> []) by (by rewrite Hh).
      destruct (rd_checkCache_run w this hashes Hne) as (s' & Hrun & Hloop).
      destruct (rd_loop_spec w this hashes (length hashes) 0%nat init)
        as (s'' & Hloop' & Hf & _ & _ & Hfail).
      rewrite Hloop in Hloop'. injection Hloop' as <-.
      exists (results s'), s'. split; [assumption|]. split; [exact Hf|].
      intros n b Hb Hfailed h Hin Hlater. by apply (Hfail n b).
  - intros this Hne Hfail. rewrite (tb_failed_run w this hashes Hne Hfail).
    eexists _, _. split; [reflexivity|]. intros h Hh. by apply mark_all_in.
  - intros this Hne Hfail. rewrite (ad_failed_run w this hashes Hne Hfail).
    eexists _, _. split; [reflexivity|]. intros h Hh. by apply mark_all_in.
Qed.

(** Runs of C2 on two hashes: the request fails with a 429 for
    Real-Debrid, a transport error for Torbox and a 503 for AllDebrid, and
    the hash comes back uncached under its lowercased spelling. *)
Lemma C2_witness :
  (exists m s', run (answers (fun _ => Responds (mkResponse 429 None)))
                  (RealDebrid.checkCache (RealDebrid.new "rd-key") [sample_hash; other_hash])
                = (Ok m, s')
                /\ m !! sample_key = Some RealDebrid.uncached)
  /\ (exists m s', run (answers (fun _ => Rejects (FetchError "ECONNRESET")))
                  (Torbox.checkCache (Torbox.new "tb-key") [sample_hash; other_hash])
                = (Ok m, s')
                /\ m !! sample_key = Some Torbox.uncached)
  /\ (exists m s', run (answers (fun _ => Responds (mkResponse 503 None)))
                     (AllDebrid.checkCache (AllDebrid.new "ad-key") [sample_hash; other_hash])
                   = (Ok m, s')
                   /\ m !! sample_key = Some AllDebrid.uncached).
Proof.
  split; [|split].
  - destruct (C2_failed_request_degrades_to_uncached
                (answers (fun _ => Responds (mkResponse 429 None)))
                [sample_hash; other_hash]) as (_ & _ & _ & Hrd & _).
    destruct (Hrd (RealDebrid.new "rd-key")) as (m & s' & Hrun & _ & Hall).
    exists m, s'. split; [exact Hrun|].
    apply (Hall 0%nat [sample_hash; other_hash] eq_refl eq_refl sample_hash); [left|].
    intros n' b' Hlt Hb'. destruct n' as [|n']; [lia|discriminate Hb'].
  - destruct (C2_failed_request_degrades_to_uncached
                (answers (fun _ => Rejects (FetchError "ECONNRESET")))
                [sample_hash; other_hash]) as (_ & _ & _ & _ & Htb & _).
    destruct (Htb (Torbox.new "tb-key")) as (m & s' & Hrun & Hall); [done|exact I|].
    exists m, s'. split; [exact Hrun|]. apply (Hall sample_hash). left.
  - destruct (C2_failed_request_degrades_to_uncached
                (answers (fun _ => Responds (mkResponse 503 None)))
                [sample_hash; other_hash]) as (_ & _ & _ & _ & _ & Had).
    destruct (Had (AllDebrid.new "ad-key")) as (m & s' & Hrun & Hall); [done|reflexivity|].
    exists m, s'. split; [exact Hrun|]. apply (Hall sample_hash). left.
Defined.

(** ** C3 *)

(** C3, at the input where the code leaves it: of 85 hashes the batches
    of 40, 40 and 5 are requested in order, but when the first request
    throws, the second batch is requested with no delay in between (the
    delay sits inside the [try] block, after the request). *)
Lemma C3_no_delay_after_a_thrown_request :
  let rd := RealDebrid.new "rd-key" in
  length hashes85 = 85%nat
  /\ trace (snd (run first_request_throws (RealDebrid.checkCache rd hashes85)))
     = [EvFetch (RealDebrid.request_of rd (take 40 hashes85));
        EvFetch (RealDebrid.request_of rd (take 40 (drop 40 hashes85)));
        EvDelay 500;
        EvFetch (RealDebrid.request_of rd (drop 80 hashes85))].
Proof. split; vm_compute; reflexivity. Qed.

(** ** C4 *)

(** The code does not meet the claim as the specification states it: the
    answer [{ success: true, data: { <hash>: null } }] holds the hash as
    a key, and the hash comes back [cached: false]. *)
Lemma torbox_presence_claim_fails : ~ torbox_presence_claim.
Proof.
  intros H.
  set (w := answers (fun _ => ok_json (VObj [("success", VBool true);
                                             ("data", VObj [(sample_key, VNull)])]))).
  destruct (H w (Torbox.new "tb-key") [sample_hash] _ _ _ _
              ltac:(done) eq_refl eq_refl eq_refl eq_refl eq_refl eq_refl)
    as (m & s' & Hrun & Hall).
  rewrite (tb_success_run w (Torbox.new "tb-key") [sample_hash] _ _ _ _
             ltac:(done) eq_refl eq_refl eq_refl eq_refl eq_refl eq_refl eq_refl)
    in Hrun.
  injection Hrun as Hm _. subst m.
  destruct (Hall sample_hash ltac:(left)) as (e & He & Hc).
  vm_compute in He. injection He as <-.
  vm_compute in Hc. discriminate Hc.
Qed.

(** What the code does on every successful answer of Torbox (2xx, truthy
    [success]) whose [data] is the object [props]: every input hash is
    given an entry, which is [cached: true] exactly when the value of
    [props] under the lowercased hash is truthy ([!!cacheInfo]). A hash
    that is no key of [props] is [cached: false]; so is one that is a key
    with the value [null], [false], [0] or the empty string. *)
Theorem torbox_cached_is_truthy_entry
    (w : world) (this : Torbox.t) (hashes : list string) r data success props :
  hashes <> [] ->
  net w 0 (Torbox.request_of this hashes) = Responds r -> ok r = true ->
  json_body r = Some data ->
  get data "success" = Ok success -> truthy success = true ->
  get data "data" = Ok (VObj props) ->
  exists m s',
    run w (Torbox.checkCache this hashes) = (Ok m, s')
    /\ forall h, h ∈ hashes ->
         exists e, m !! toLowerCase h = Some e
                   /\ get e "cached" = Ok (VBool (truthy (own props (toLowerCase h))))
                   /\ (toLowerCase h ∉ props.*1 -> get e "cached" = Ok (VBool false)).
Proof.
  intros Hne Hnet Hok Hjson Hs Hst Hd.
  rewrite (tb_success_run w this hashes r data success (VObj props)
             Hne Hnet Hok Hjson Hs Hst Hd eq_refl).
  eexists _, _. split; [reflexivity|]. intros h Hh.
  exists (tb_entry (VObj props) (toLowerCase h)).
  split; [by apply write_all_in|]. split; [reflexivity|].
  intros Habs.
  change (get (tb_entry (VObj props) (toLowerCase h)) "cached")
    with (Ok (VBool (truthy (own props (toLowerCase h))))).
  by rewrite own_absent.
Qed.

(** A run where the code and the claim agree: one hash has an entry in
    [data], the other is absent from it. *)
Lemma torbox_cached_is_truthy_entry_run :
  exists m s',
    run (answers (fun _ => ok_json
           (VObj [("success", VBool true);
                  ("data", VObj [(sample_key, VObj [("files", VArr [VStr "a.mkv"])])])])))
        (Torbox.checkCache (Torbox.new "tb-key") [sample_hash; other_hash])
    = (Ok m, s')
    /\ (exists e, m !! sample_key = Some e /\ get e "cached" = Ok (VBool true))
    /\ (exists e, m !! other_hash = Some e /\ get e "cached" = Ok (VBool false)).
Proof.
  destruct (torbox_cached_is_truthy_entry
              (answers (fun _ => ok_json
                 (VObj [("success", VBool true);
                        ("data", VObj [(sample_key, VObj [("files", VArr [VStr "a.mkv"])])])])))
              (Torbox.new "tb-key") [sample_hash; other_hash] _ _ _ _
              ltac:(done) eq_refl eq_refl eq_refl eq_refl eq_refl eq_refl)
    as (m & s' & Hrun & Hall).
  exists m, s'. split; [exact Hrun|]. split.
  - destruct (Hall sample_hash ltac:(left)) as (e & He & Hc & _). by exists e.
  - destruct (Hall other_hash ltac:(right; left)) as (e & He & Hc & _). by exists e.
Defined.

(** C4, at the input where the code leaves it. Torbox answers
    [{ success: true, data: { <hash>: null } }]: the lowercased input
    hash is present as a key of the data map, and the hash comes back
    [cached: false]. The code tests the value stored under the key
    ([!!cacheInfo]), not the presence of the key that its comment and the
    specification speak of. *)
Lemma C4_present_key_with_null_value_is_uncached :
  let props := [(sample_key, VNull)] in
  let w := answers (fun _ => ok_json (VObj [("success", VBool true);
                                            ("data", VObj props)])) in
  toLowerCase sample_hash ∈ props.*1
  /\ exists m s',
       run w (Torbox.checkCache (Torbox.new "tb-key") [sample_hash]) = (Ok m, s')
       /\ exists e, m !! toLowerCase sample_hash = Some e
                    /\ get e "cached" = Ok (VBool false).
Proof.
  intros props w. split; [by left|].
  destruct (torbox_cached_is_truthy_entry w (Torbox.new "tb-key") [sample_hash]
              _ _ _ props ltac:(done) eq_refl eq_refl eq_refl eq_refl eq_refl eq_refl)
    as (m & s' & Hrun & Hall).
  exists m, s'. split; [exact Hrun|].
  destruct (Hall sample_hash ltac:(left)) as (e & He & Hc & _).
  exists e. split; [exact He|exact Hc].
Qed.

(** ** C5 *)

(** The answer
    [{ status: 'success', data: { magnets: [{ instant: true }, { instant: true }] } }]
    to a request for one hash is successful and its element 0 says
    [instant: true], yet the hash comes back [cached: false]: pairing the
    second element with [hashes[1]] throws, and the handler marks every
    input hash uncached. *)
Lemma C5_counterexample : ~ alldebrid_pairing_claim.
Proof.
  intros H.
  set (magnets := [VObj [("instant", VBool true)]; VObj [("instant", VBool true)]]).
  set (w := answers (fun _ => ok_json
                       (VObj [("status", VStr "success");
                              ("data", VObj [("magnets", VArr magnets)])]))).
  destruct (H w (AllDebrid.new "ad-key") [sample_hash] _ _ _ magnets
              ltac:(done) ltac:(repeat constructor; set_solver)
              eq_refl eq_refl eq_refl eq_refl eq_refl eq_refl eq_refl)
    as (m & s' & Hrun & Hall).
  assert (Hlook : match fst (run w (AllDebrid.checkCache (AllDebrid.new "ad-key")
                                      [sample_hash])) with
                  | Ok m0 => m0 !! sample_key
                  | Throw _ => None
                  end = Some AllDebrid.uncached) by (vm_compute; reflexivity).
  rewrite Hrun in Hlook. simpl in Hlook.
  destruct (Hall 0%nat sample_hash _ eq_refl eq_refl) as (e & He & Hc).
  change (toLowerCase sample_hash) with sample_key in He.
  rewrite Hlook in He. injection He as <-.
  vm_compute in Hc. discriminate Hc.
Qed.


(** C5, amended. On a successful answer of AllDebrid (2xx, status
    ['success']) whose [magnets] is an array of readable (non-null)
    elements that is no longer than the input,
    the result is the pairing by position [write_zip]: the element at
    index [i] gives the entry of the hash at index [i] (unless a later
    element is paired with a hash of the same lowercase spelling, which
    then writes the entry again). The entry reads only the [instant] and
    [files] fields of the element, no field that names a hash, and it is
    [cached: true] exactly when [instant === true]. *)
Theorem C5_alldebrid_pairs_by_position
    (w : world) (this : AllDebrid.t) (hashes : list string) r data inner magnets :
  hashes <> [] ->
  net w 0 (AllDebrid.request_of this hashes) = Responds r -> ok r = true ->
  json_body r = Some data ->
  get data "status" = Ok (VStr "success") ->
  get data "data" = Ok inner -> truthy inner = true ->
  get inner "magnets" = Ok (VArr magnets) ->
  Forall readable magnets ->
  (length magnets <= length hashes)%nat ->
  exists m s',
    run w (AllDebrid.checkCache this hashes) = (Ok m, s')
    /\ m = write_zip hashes magnets ∅
    /\ forall i h magnet,
         hashes !! i = Some h -> magnets !! i = Some magnet ->
         (forall j h', (i < j)%nat -> (j < length magnets)%nat -> hashes !! j = Some h' ->
                       toLowerCase h' <> toLowerCase h) ->
         exists e,
           m !! toLowerCase h = Some e
           /\ e = AllDebrid.entry_of (field magnet "instant") (field magnet "files")
           /\ get e "cached" = Ok (VBool (strict_eq_bool (field magnet "instant") true)).
Proof.
  intros Hne Hnet Hok Hjson Hst Hd Hit Hm Hall Hlen.
  rewrite (ad_success_run w this hashes r data inner magnets
             Hne Hnet Hok Hjson Hst Hd Hit Hm Hall Hlen).
  eexists _, _. split; [reflexivity|]. split; [reflexivity|].
  intros i h magnet Hh Hmg Hlater. eexists. split; [|split; reflexivity].
  by apply (write_zip_lookup hashes magnets ∅ i h magnet).
Qed.

(** A run of C5, amended, in which each element names the hash of the
    other position: the entries follow the positions, not the names. *)
Lemma C5_witness :
  exists m s',
    run (answers (fun _ => ok_json
           (VObj [("status", VStr "success");
                  ("data", VObj [("magnets",
                     VArr [VObj [("hash", VStr other_hash); ("instant", VBool true)];
                           VObj [("hash", VStr sample_key); ("instant", VBool false)]])])])))
        (AllDebrid.checkCache (AllDebrid.new "ad-key") [sample_hash; other_hash])
    = (Ok m, s')
    /\ (exists e, m !! sample_key = Some e /\ get e "cached" = Ok (VBool true))
    /\ (exists e, m !! other_hash = Some e /\ get e "cached" = Ok (VBool false)).
Proof.
  destruct (C5_alldebrid_pairs_by_position
              (answers (fun _ => ok_json
                 (VObj [("status", VStr "success");
                        ("data", VObj [("magnets",
                           VArr [VObj [("hash", VStr other_hash); ("instant", VBool true)];
                                 VObj [("hash", VStr sample_key); ("instant", VBool false)]])])])))
              (AllDebrid.new "ad-key") [sample_hash; other_hash] _ _ _ _
              ltac:(done) eq_refl eq_refl eq_refl eq_refl eq_refl eq_refl eq_refl)
    as (m & s' & Hrun & _ & Hall).
  { repeat constructor; discriminate. }
  { simpl. lia. }
  exists m, s'. split; [exact Hrun|]. split.
  - destruct (Hall 0%nat sample_hash _ eq_refl eq_refl) as (e & He & _ & Hc).
    + intros j h' Hlt Hj Hh'. destruct j as [|[|j]]; [lia| |simpl in Hj; lia].
      injection Hh' as <-. discriminate.
    + by exists e.
  - destruct (Hall 1%nat other_hash _ eq_refl eq_refl) as (e & He & _ & Hc).
    + intros j h' Hlt Hj. simpl in Hj. lia.
    + by exists e.
Defined.

(** ** C6 *)

(** C6. [completeIds] takes one of three paths by which identifiers are
    present (truthy). Both present: the pair is returned as it is and no
    request is made. Only the IMDb id present: one forward lookup, and a
    movie match gives its [id] as [tmdbId]. Only the TMDb id present with
    type ['series']: one reverse lookup under the media type [tv], and the
    external [imdb_id] becomes [imdbId]. *)
Theorem C6_completeIds_paths (w : world) :
  (forall imdbId tmdbId type,
     truthy (VStr imdbId) = true -> truthy (VNum tmdbId) = true ->
     run w (IdConverter.completeIds (Some imdbId) (Some tmdbId) type)
     = (Ok (IdConverter.id_pair (VStr imdbId) (VNum tmdbId)), init))
  /\ (forall imdbId tmdbId type r data m rest v,
        startsWith imdbId "tt" = true ->
        truthy (IdConverter.num_or_null tmdbId) = false ->
        net w 0 (IdConverter.find_request imdbId) = Responds r -> ok r = true ->
        json_body r = Some data ->
        get data "movie_results" = Ok (VArr (m :: rest)) ->
        get m "id" = Ok v ->
        run w (IdConverter.completeIds (Some imdbId) tmdbId type)
        = (Ok (IdConverter.id_pair (VStr imdbId) v),
           mkState ∅ [EvFetch (IdConverter.find_request imdbId)]))
  /\ (forall imdbId tmdbId r data ext v,
        truthy (IdConverter.str_or_null imdbId) = false ->
        tmdbId <> 0 ->
        net w 0 (IdConverter.details_request "tv" tmdbId) = Responds r -> ok r = true ->
        json_body r = Some data ->
        get data "external_ids" = Ok ext -> truthy ext = true ->
        get ext "imdb_id" = Ok v -> truthy v = true ->
        run w (IdConverter.completeIds imdbId (Some tmdbId) (Some "series"))
        = (Ok (IdConverter.id_pair v (VNum tmdbId)),
           mkState ∅ [EvFetch (IdConverter.details_request "tv" tmdbId)])).
Proof.
  split; [|split].
  - intros imdbId tmdbId type Ha Hb. unfold run, IdConverter.completeIds.
    cbn [IdConverter.str_or_null IdConverter.num_or_null]. rewrite Ha, Hb. reflexivity.
  - intros imdbId tmdbId type r data m rest v Htt Hb Hnet Hok Hjson Hmr Hid.
    pose proof (imdbToTmdb_movie w imdbId r data m rest v Htt Hnet Hok Hjson Hmr Hid) as Hrun.
    unfold run in *. unfold IdConverter.completeIds.
    cbn [IdConverter.str_or_null]. rewrite Hb, (startsWith_tt_truthy _ Htt).
    cbn [andb negb]. cbv beta iota. unfold bind at 1. rewrite Hrun. reflexivity.
  - intros imdbId tmdbId r data ext v Ha Hn Hnet Hok Hjson Hext Het Hv Hvt.
    pose proof (tmdbToImdb_found w tmdbId "series" r data ext v Hn ltac:(done)
                  Hnet Hok Hjson Hext Het Hv Hvt) as Hrun.
    unfold run in *. unfold IdConverter.completeIds. rewrite Ha.
    assert (Hb : truthy (IdConverter.num_or_null (Some tmdbId)) = true).
    { simpl. by destruct (Z.eqb_spec tmdbId 0). }
    rewrite Hb. cbn [andb negb]. cbv beta iota. unfold bind at 1. rewrite Hrun. reflexivity.
Qed.

(** The three runs the specification names. *)
Lemma C6_witness :
  run (answers (fun _ => Rejects (FetchError "unused")))
      (IdConverter.completeIds (Some "tt0111161") (Some 278) (Some "movie"))
  = (Ok (VObj [("imdbId", VStr "tt0111161"); ("tmdbId", VNum 278)]), init)
  /\ run (answers (fun _ => ok_json (VObj [("movie_results", VArr [VObj [("id", VNum 278)]]);
                                          ("tv_results", VArr [])])))
         (IdConverter.completeIds (Some "tt0111161") None (Some "movie"))
     = (Ok (VObj [("imdbId", VStr "tt0111161"); ("tmdbId", VNum 278)]),
        mkState ∅ [EvFetch (IdConverter.find_request "tt0111161")])
  /\ run (answers (fun _ => ok_json (VObj [("id", VNum 1396);
                                          ("external_ids", VObj [("imdb_id", VStr "tt0903747")])])))
         (IdConverter.completeIds None (Some 1396) (Some "series"))
     = (Ok (VObj [("imdbId", VStr "tt0903747"); ("tmdbId", VNum 1396)]),
        mkState ∅ [EvFetch (IdConverter.details_request "tv" 1396)]).
Proof.
  split; [|split].
  - apply (C6_completeIds_paths (answers (fun _ => Rejects (FetchError "unused"))));
      reflexivity.
  - eapply (proj1 (proj2 (C6_completeIds_paths _))); reflexivity.
  - eapply (proj2 (proj2 (C6_completeIds_paths _))); try reflexivity. lia.
Defined.

(** ** C7 *)

(** C7. On a parsed 2xx answer [imdbToTmdb] looks at [movie_results],
    then [tv_results], then [tv_episode_results], and takes element 0 of
    the first that has one: a movie gives its [id] with type ['movie'], a
    series its [id] with type ['series'], an episode its [show_id] (the
    series it belongs to) with type ['series']. With no match in any of
    the three it returns [{ tmdbId: null, type: null }] and does not
    throw. *)
Theorem C7_imdbToTmdb_category_order (w : world) imdbId r data :
  startsWith imdbId "tt" = true ->
  net w 0 (IdConverter.find_request imdbId) = Responds r -> ok r = true ->
  json_body r = Some data ->
  let result := fst (run w (IdConverter.imdbToTmdb (Some imdbId))) in
  (forall m rest v,
     get data "movie_results" = Ok (VArr (m :: rest)) -> get m "id" = Ok v ->
     result = Ok (IdConverter.conversion v (VStr "movie")))
  /\ (forall mr m rest v,
        get data "movie_results" = Ok mr -> no_match mr ->
        get data "tv_results" = Ok (VArr (m :: rest)) -> get m "id" = Ok v ->
        result = Ok (IdConverter.conversion v (VStr "series")))
  /\ (forall mr tr m rest v,
        get data "movie_results" = Ok mr -> no_match mr ->
        get data "tv_results" = Ok tr -> no_match tr ->
        get data "tv_episode_results" = Ok (VArr (m :: rest)) -> get m "show_id" = Ok v ->
        result = Ok (IdConverter.conversion v (VStr "series")))
  /\ (forall mr tr er,
        get data "movie_results" = Ok mr -> no_match mr ->
        get data "tv_results" = Ok tr -> no_match tr ->
        get data "tv_episode_results" = Ok er -> no_match er ->
        result = Ok (IdConverter.conversion VNull VNull)).
Proof.
  intros Htt Hnet Hok Hjson result. subst result. repeat split.
  - intros m rest v Hmr Hid.
    by rewrite (imdbToTmdb_movie w imdbId r data m rest v).
  - intros mr m rest v Hmr Hno Htv Hid.
    by rewrite (imdbToTmdb_tv w imdbId r data mr m rest v).
  - intros mr tr m rest v Hmr Hno Htv Hno' Hep Hid.
    by rewrite (imdbToTmdb_episode w imdbId r data mr tr m rest v).
  - intros mr tr er Hmr Hno Htv Hno' Hep Hno''.
    by rewrite (imdbToTmdb_none w imdbId r data mr tr er).
Qed.

(** An episode: the answer holds the episode's own [id] and its
    [show_id]; the series identifier is the one returned. *)
Lemma C7_witness :
  fst (run (answers (fun _ => ok_json
              (VObj [("movie_results", VArr []);
                     ("tv_results", VArr []);
                     ("tv_episode_results",
                      VArr [VObj [("id", VNum 62085); ("show_id", VNum 1396)]])])))
           (IdConverter.imdbToTmdb (Some "tt0959621")))
  = Ok (VObj [("tmdbId", VNum 1396); ("type", VStr "series")]).
Proof.
  eapply (proj1 (proj2 (proj2
            (C7_imdbToTmdb_category_order
               (answers (fun _ => ok_json
                  (VObj [("movie_results", VArr []);
                         ("tv_results", VArr []);
                         ("tv_episode_results",
                          VArr [VObj [("id", VNum 62085); ("show_id", VNum 1396)]])])))
               "tt0959621" _ _ eq_refl eq_refl eq_refl eq_refl))));
    try reflexivity; by right.
Defined.

(** ** C8 *)

Section CheckAll.

Import Aggregator.

(** C8. [checkAllDebridCaches] returns an object with exactly the three
    entries [realdebrid], [torbox] and [alldebrid]. A provider that is
    switched off or absent contributes the empty map and its [checkCache]
    is not called. An enabled provider contributes what its [checkCache]
    resolved to, or the empty map when it rejected, whatever the other
    two did. *)
Theorem C8_checkAllDebridCaches_isolates_providers
    (hashes : list string) (s : services) :
  let p := checkAllDebridCaches hashes s in
  dom (cacheResults p) = {["realdebrid"; "torbox"; "alldebrid"]}
  /\ contribution p "realdebrid" (useRealDebrid s) (realdebrid s) hashes
  /\ contribution p "torbox" (useTorbox s) (torbox s) hashes
  /\ contribution p "alldebrid" (useAllDebrid s) (alldebrid s) hashes.
Proof.
  destruct s as [rd tb ad urd utb uad].
  unfold checkAllDebridCaches, contribution, check. simpl.
  destruct urd, rd as [rd|]; try destruct (rd hashes);
    destruct utb, tb as [tb|]; try destruct (tb hashes);
    destruct uad, ad as [ad|]; try destruct (ad hashes);
    simpl; (split; [rewrite !dom_insert_L, dom_empty_L; set_solver|]);
    repeat split; try (simplify_map_eq; done);
    by (apply (bool_decide_unpack _); vm_compute).
Qed.

(** A run of C8: Real-Debrid rejects, Torbox answers, AllDebrid is
    switched off. Torbox's map is returned, the other two entries are
    empty, and AllDebrid was not called. *)
Lemma C8_witness :
  let tb := as_client (answers (fun _ => ok_json
                         (VObj [("success", VBool true);
                                ("data", VObj [(sample_key, VObj [])])])))
                      (Torbox.checkCache (Torbox.new "tb-key")) in
  let s := mkServices (Some (fun _ => Throw (Error "boom"))) (Some tb)
                      (Some (fun _ => Throw (Error "never called")))
                      true true false in
  let p := checkAllDebridCaches [sample_hash] s in
  cacheResults p !! "realdebrid" = Some ∅
  /\ cacheResults p !! "torbox" = Some {[sample_key := tb_entry (VObj [(sample_key, VObj [])]) sample_key]}
  /\ cacheResults p !! "alldebrid" = Some ∅
  /\ "alldebrid" ∉ invoked p.
Proof.
  intros tb s p.
  destruct (C8_checkAllDebridCaches_isolates_providers [sample_hash] s)
    as (_ & (_ & Hrd) & (_ & Htb) & (Had & Hno)).
  split; [exact Hrd|]. split; [|split; [exact Had|exact Hno]].
  exact Htb.
Defined.

End CheckAll.

(** ** C9 *)

Lemma lowercased_keys_intro hashes (m : gmap string value) s' :
  keys_within hashes m -> lowercased_keys hashes (Ok m, s').
Proof.
  intros Hm.
  assert (Hfix : forall k, is_Some (m !! k) -> toLowerCase k = k).
  { intros k Hk. apply Hm, list_elem_of_fmap in Hk as (h & -> & _).
    apply toLowerCase_idemp. }
  exists m, s'. split; [reflexivity|]. split.
  - intros k Hk. split; [by apply Hm|by apply Hfix].
  - intros k1 k2 H1 H2 Heq. by rewrite <- (Hfix k1 H1), <- (Hfix k2 H2).
Qed.

(** C9. For each of the three clients, in every world and for every
    input, every key of the map [checkCache] returns is the lowercasing
    of an input hash and is itself lowercase, so two spellings of one
    hash never give two keys. *)
Theorem C9_keys_are_lowercased_input_hashes (w : world) (hashes : list string) :
  (forall this, lowercased_keys hashes (run w (RealDebrid.checkCache this hashes)))
  /\ (forall this, lowercased_keys hashes (run w (Torbox.checkCache this hashes)))
  /\ (forall this, lowercased_keys hashes (run w (AllDebrid.checkCache this hashes))).
Proof.
  split; [|split]; intros this; unfold run.
  - destruct (rd_checkCache_keys w this hashes init) as (m & s' & -> & Hm).
    by apply lowercased_keys_intro.
  - destruct (tb_checkCache_keys w this hashes init) as (m & s' & -> & Hm).
    by apply lowercased_keys_intro.
  - destruct (ad_checkCache_keys w this hashes init) as (m & s' & -> & Hm).
    by apply lowercased_keys_intro.
Qed.

(** ** C10 *)

(** C10. The lookups check their arguments before any request:
    [imdbToTmdb] returns [{ tmdbId: null, type: null }] with no request
    when the id is missing or does not start with ["tt"], and
    [tmdbToImdb] returns [null] with no request when the TMDb id or the
    type is missing (falsy). *)
Theorem C10_lookups_validate_before_any_request (w : world) :
  (forall imdbId,
     imdbId = None \/ (exists s, imdbId = Some s /\ startsWith s "tt" = false) ->
     run w (IdConverter.imdbToTmdb imdbId)
     = (Ok (IdConverter.conversion VNull VNull), init))
  /\ (forall tmdbId type,
        truthy (IdConverter.num_or_null tmdbId) = false
        \/ truthy (IdConverter.str_or_null type) = false ->
        run w (IdConverter.tmdbToImdb tmdbId type) = (Ok VNull, init)).
Proof.
  split.
  - intros imdbId [->|(s & -> & Hs)]; [reflexivity|].
    unfold run, IdConverter.imdbToTmdb. rewrite Hs, orb_true_r. reflexivity.
  - intros [n|] [ty|] H; try reflexivity.
    unfold run, IdConverter.tmdbToImdb.
    cbn [IdConverter.num_or_null IdConverter.str_or_null] in H.
    destruct H as [-> | ->]; [reflexivity|]. rewrite orb_true_r. reflexivity.
Qed.

(** Runs of C10 in a world that would answer any request: none is
    made. *)
Lemma C10_witness :
  run (answers (fun _ => ok_json (VObj [])))
      (IdConverter.imdbToTmdb (Some "nm0000151"))
  = (Ok (VObj [("tmdbId", VNull); ("type", VNull)]), init)
  /\ run (answers (fun _ => ok_json (VObj [])))
         (IdConverter.tmdbToImdb (Some 1396) None)
     = (Ok VNull, init).
Proof.
  split.
  - apply (proj1 (C10_lookups_validate_before_any_request _)).
    right. exists "nm0000151". split; reflexivity.
  - apply (proj2 (C10_lookups_validate_before_any_request _)).
    right. reflexivity.
Defined.

(** * Further properties of the Real-Debrid loop *)

(** The batches cut the input in order into pieces of 1 to 40 hashes
    (so the iterations the loop is given are enough), and in every world
    the requests issued are exactly those of the batches, in order. *)
Theorem rd_batches_cover_input (hashes : list string) :
  concat (RealDebrid.batches hashes) = hashes
  /\ (forall b, b ∈ RealDebrid.batches hashes ->
                (0 < length b <= RealDebrid.batchSize)%nat)
  /\ forall w this,
       fetches (trace (snd (run w (RealDebrid.checkCache this hashes))))
       = RealDebrid.request_of this <$> RealDebrid.batches hashes.
Proof.
  split; [|split].
  - unfold RealDebrid.batches. rewrite rd_batches_concat by lia. apply drop_0.
  - intros b Hb. by eapply rd_batches_sizes.
  - intros w this. destruct hashes as [|h0 hashes'] eqn:Hh; [reflexivity|].
    rewrite <- Hh. assert (Hne : hashes <> []) by (by rewrite Hh).
    destruct (rd_checkCache_run w this hashes Hne) as (s' & Hrun & Hloop).
    destruct (rd_loop_spec w this hashes (length hashes) 0%nat init)
      as (s'' & Hloop' & Hf & _).
    rewrite Hloop in Hloop'. injection Hloop' as <-.
    rewrite Hrun. exact Hf.
Qed.

(** 85 hashes, every request answered: three requests, of 40, 40 and 5
    hashes, with a delay of 500 ms after the first and after the second
    and none after the third. *)
Lemma rd_85_hashes_answered :
  let rd := RealDebrid.new "rd-key" in
  length <$> RealDebrid.batches hashes85 = [40; 40; 5]%nat
  /\ trace (snd (run (answers (fun _ => ok_json (VObj [])))
                     (RealDebrid.checkCache rd hashes85)))
     = [EvFetch (RealDebrid.request_of rd (take 40 hashes85));
        EvDelay 500;
        EvFetch (RealDebrid.request_of rd (take 40 (drop 40 hashes85)));
        EvDelay 500;
        EvFetch (RealDebrid.request_of rd (drop 80 hashes85))].
Proof. split; vm_compute; reflexivity. Qed.

(** * Further properties *)

(** ** Real-Debrid: where the delays fall *)
Section RealDebridTrace.

Import RealDebrid.
Context (w : world) (this : RealDebrid.t).

Lemma rd_isCached_fst cacheInfo s s' :
  fst (isCached cacheInfo w s) = fst (isCached cacheInfo w s').
Proof.
  unfold isCached. destruct (truthy cacheInfo); [|reflexivity].
  unfold bind, lift. destruct (get cacheInfo "rd") as [rd|e]; [|reflexivity].
  destruct (truthy rd); [|reflexivity].
  destruct (get rd "length") as [len|e]; [|reflexivity].
  destruct len; simpl; try reflexivity; by destruct (ToNumber_gt0 w _).
Qed.

Lemma rd_mark_from_ok_indep data h s s' :
  is_ok (fst (mark_from data h w s)) = is_ok (fst (mark_from data h w s')).
Proof.
  unfold mark_from, bind, lift. cbv beta.
  destruct (get data (toLowerCase h)) as [cacheInfo|e]; [|reflexivity].
  pose proof (rd_isCached_fst cacheInfo s s') as Hfst.
  pose proof (rd_isCached_state w cacheInfo s) as Hs.
  pose proof (rd_isCached_state w cacheInfo s') as Hs'.
  destruct (isCached cacheInfo w s) as [r1 s1], (isCached cacheInfo w s') as [r2 s2].
  simpl in *. subst. destruct r2; [|reflexivity].
  by destruct (get_opt cacheInfo "rd").
Qed.

Lemma rd_forEach_ok_indep data : forall l s s',
  is_ok (fst (forEach l (mark_from data) w s))
  = is_ok (fst (forEach l (mark_from data) w s')).
Proof.
  induction l as [|h l IH]; intros s s'; [reflexivity|].
  simpl. unfold bind. pose proof (rd_mark_from_ok_indep data h s s') as Hh.
  destruct (rd_mark_from_step w data h s) as [[v Hv]|[e He]];
    destruct (rd_mark_from_step w data h s') as [[v' Hv']|[e' He']];
    rewrite ?Hv, ?He, ?Hv', ?He' in *; simpl in Hh; try discriminate; [apply IH|reflexivity].
Qed.

Lemma rd_check_batch_trace hashes i s :
  let batch := slice i (i + batchSize) hashes in
  trace (snd (check_batch this hashes i w s))
  = trace s
    ++ EvFetch (request_of this batch)
       :: (if rd_completes w this batch (length (fetches (trace s)))
              && (i + batchSize <? length hashes)%nat
           then [EvDelay 500] else []).
Proof.
  intros batch. unfold check_batch, rd_completes. fold batch.
  unfold try_catch, bind at 1, fetch.
  destruct (net w (length (fetches (trace s))) (request_of this batch)) as [e|r].
  - rewrite rd_mark_uncached_all. reflexivity.
  - set (s0 := record (EvFetch (request_of this batch)) s).
    unfold bind at 1, json. destruct (json_body r) as [data|]; simpl.
    2:{ rewrite rd_mark_uncached_all. reflexivity. }
    unfold bind at 1. destruct (ok r).
    + rewrite (rd_forEach_ok_indep data batch init s0).
      destruct (forEach_writes (mark_from data) w (rd_mark_from_step w data) batch s0)
        as (r' & s1 & Hrun & Htr & _).
      rewrite Hrun. destruct r' as [[]|e]; simpl.
      * destruct (i + batchSize <? length hashes)%nat; simpl; rewrite Htr; simpl;
          [by rewrite <- app_assoc|reflexivity].
      * rewrite rd_mark_uncached_all. simpl. by rewrite Htr.
    + rewrite rd_mark_uncached_all.
      destruct (i + batchSize <? length hashes)%nat; simpl;
        [by rewrite <- app_assoc|reflexivity].
Qed.

Lemma rd_batches_from_nil hashes fuel i :
  (length hashes - i <= fuel)%nat ->
  bool_decide (batches_from fuel i hashes = []) = negb (i <? length hashes)%nat.
Proof.
  intros Hfuel. destruct fuel as [|fuel]; cbn [batches_from];
    destruct (Nat.ltb_spec i (length hashes)); try lia;
    cbn [negb]; case_bool_decide; done.
Qed.

Lemma rd_loop_trace hashes : forall fuel i s,
  (length hashes - i <= fuel)%nat ->
  trace (snd (for_loop fuel i (length hashes) batchSize (check_batch this hashes) w s))
  = trace s ++ rd_events w this (length (fetches (trace s))) (batches_from fuel i hashes).
Proof.
  induction fuel as [|fuel IH]; intros i s Hfuel; simpl.
  - by rewrite app_nil_r.
  - destruct (i <? length hashes)%nat eqn:Hi; [|by rewrite app_nil_r].
    unfold bind. pose proof (rd_check_batch_trace hashes i s) as Htr.
    destruct (rd_check_batch_spec w this hashes i s) as (s1 & Hb & Hf1 & _).
    rewrite Hb in *. simpl in Htr.
    rewrite IH by (unfold batchSize; lia). rewrite Hf1, Htr, length_app. simpl.
    rewrite rd_batches_from_nil by (unfold batchSize; lia). rewrite negb_involutive.
    rewrite Nat.add_1_r, <- app_assoc. reflexivity.
Qed.

End RealDebridTrace.

(** In every world the events of [RealDebrid.checkCache] are, batch by
    batch, the request of the batch followed by one delay of 500 ms
    exactly when another batch follows and the [try] block of the batch
    ran to its end; a batch whose request is rejected, or whose body does
    not parse, is followed by no delay. *)
Theorem rd_delay_placement (w : world) (this : RealDebrid.t) (hashes : list string) :
  trace (snd (run w (RealDebrid.checkCache this hashes)))
  = rd_events w this 0 (RealDebrid.batches hashes)
  /\ (forall b n e,
        net w n (RealDebrid.request_of this b) = Rejects e ->
        rd_completes w this b n = false)
  /\ (forall b n r,
        net w n (RealDebrid.request_of this b) = Responds r ->
        (json_body r = None -> rd_completes w this b n = false)
        /\ (forall data, json_body r = Some data -> ok r = false ->
                         rd_completes w this b n = true)).
Proof.
  split; [|split].
  - destruct hashes as [|h0 hashes'] eqn:Hh; [reflexivity|].
    rewrite <- Hh. assert (Hne : hashes <> []) by (by rewrite Hh).
    destruct (rd_checkCache_run w this hashes Hne) as (s' & Hrun & Hloop).
    pose proof (rd_loop_trace w this hashes (length hashes) 0%nat init ltac:(lia)) as Htr.
    rewrite Hloop in Htr. rewrite Hrun. exact Htr.
  - intros b n e Hnet. unfold rd_completes. by rewrite Hnet.
  - intros b n r Hnet. unfold rd_completes. rewrite Hnet. split.
    + by intros ->.
    + by intros data -> ->.
Qed.

(** ** Computations that issue no request *)
Section Silent.

Context (w : world).

Lemma silent_ret {A} (a : A) : silent w (ret a).
Proof. intros s. reflexivity. Qed.

Lemma silent_throw {A} e : silent w (@throw A e).
Proof. intros s. reflexivity. Qed.

Lemma silent_lift {A} (r : res A) : silent w (lift r).
Proof. intros s. reflexivity. Qed.

Lemma silent_json r : silent w (json r).
Proof. intros s. unfold json. by destruct (json_body r). Qed.

Lemma silent_gt0 v : silent w (gt0 v).
Proof. intros s. by destruct v. Qed.

Lemma silent_set_result k v : silent w (set_result k v).
Proof. intros s. reflexivity. Qed.

Lemma silent_bind {A B} (m : M A) (k : A -> M B) :
  silent w m -> (forall a, silent w (k a)) -> silent w (bind m k).
Proof.
  intros Hm Hk s. unfold bind. specialize (Hm s).
  destruct (m w s) as [[a|e] s1]; simpl in *; [|assumption].
  rewrite <- Hm. apply Hk.
Qed.

Lemma silent_try_catch {A} (m : M A) (h : exn -> M A) :
  silent w m -> (forall e, silent w (h e)) -> silent w (try_catch m h).
Proof.
  intros Hm Hh s. unfold try_catch. specialize (Hm s).
  destruct (m w s) as [[a|e] s1]; simpl in *; [assumption|].
  rewrite <- Hm. apply Hh.
Qed.

Lemma silent_forEach {A} (l : list A) (f : A -> M unit) :
  (forall x, silent w (f x)) -> silent w (forEach l f).
Proof.
  intros Hf. induction l as [|x l IH]; simpl; [apply silent_ret|].
  apply silent_bind; [apply Hf | intros _; apply IH].
Qed.

Lemma silent_forEachIndexed {A} (l : list A) (f : A -> nat -> M unit) :
  (forall x i, silent w (f x i)) -> forall i, silent w (forEachIndexed i l f).
Proof.
  intros Hf. induction l as [|x l IH]; intros i; simpl; [apply silent_ret|].
  apply silent_bind; [apply Hf | intros _; apply IH].
Qed.

(** A request inside [try], with nothing but silent work after it and in
    the handler: the one request is all the call does. *)
Lemma fetch_then_silent {A} req (k : response -> M A) (h : exn -> M A) s :
  (forall r, silent w (k r)) -> (forall e, silent w (h e)) ->
  trace (snd (try_catch (bind (fetch req) k) h w s)) = trace s ++ [EvFetch req].
Proof.
  intros Hk Hh. unfold try_catch, bind, fetch.
  destruct (net w _ req) as [e|r].
  - rewrite Hh. reflexivity.
  - specialize (Hk r (record (EvFetch req) s)).
    destruct (k r w (record (EvFetch req) s)) as [[a|e] s1]; simpl in *; [assumption|].
    by rewrite Hh.
Qed.

(** The same without a handler. *)
Lemma fetch_then_silent_bare {A} req (k : response -> M A) s :
  (forall r, silent w (k r)) ->
  trace (snd (bind (fetch req) k w s)) = trace s ++ [EvFetch req].
Proof.
  intros Hk. unfold bind, fetch.
  destruct (net w _ req) as [e|r]; [reflexivity|].
  specialize (Hk r (record (EvFetch req) s)).
  by destruct (k r w (record (EvFetch req) s)) as [[a|e] s1].
Qed.

End Silent.

(** ** Torbox and AllDebrid: one request *)
Section OneRequest.

Context (w : world).

Lemma tb_mark_from_silent inner h : silent w (Torbox.mark_from inner h).
Proof.
  unfold Torbox.mark_from.
  apply silent_bind; [apply silent_lift|]. intros cacheInfo.
  apply silent_bind; [apply silent_lift|]. intros files. apply silent_set_result.
Qed.

Lemma ad_mark_from_silent hashes magnet index :
  silent w (AllDebrid.mark_from hashes magnet index).
Proof.
  unfold AllDebrid.mark_from. destruct (hashes !! index); [|apply silent_throw].
  apply silent_bind; [apply silent_lift|]. intros instant.
  apply silent_bind; [apply silent_lift|]. intros files. apply silent_set_result.
Qed.

Lemma tb_checkCache_trace this hashes :
  hashes <> [] ->
  trace (snd (run w (Torbox.checkCache this hashes)))
  = [EvFetch (Torbox.request_of this hashes)].
Proof.
  intros Hne. unfold run, Torbox.checkCache.
  destruct hashes as [|h0 hashes']; [done|]. set (hashes := h0 :: hashes') in *.
  change (length hashes =? 0)%nat with false. cbv iota.
  unfold bind at 1, new_results. change (mkState ∅ (trace init)) with init.
  unfold bind at 1.
  match goal with
  | |- context [try_catch (bind (fetch ?req) ?k) ?h w init] =>
      assert (Hk : forall r, silent w (k r));
      [|assert (Hh : forall e, silent w (h e));
        [|pose proof (fetch_then_silent w req k h init Hk Hh) as Htr;
          by destruct (try_catch (bind (fetch req) k) h w init) as [[[]|e] s1]]]
  end.
  - intros response. apply silent_bind;
      [destruct (negb (ok response)); [apply silent_throw|apply silent_ret]|].
    intros _. apply silent_bind; [apply silent_json|]. intros data.
    apply silent_bind; [apply silent_lift|]. intros success.
    apply silent_bind;
      [destruct (truthy success); [apply silent_lift|apply silent_ret]|].
    intros inner. destruct (truthy inner); [|apply silent_ret].
    apply silent_forEach. intros h. apply tb_mark_from_silent.
  - intros _. apply silent_forEach. intros h. apply silent_set_result.
Qed.

Lemma ad_checkCache_trace this hashes :
  hashes <> [] ->
  trace (snd (run w (AllDebrid.checkCache this hashes)))
  = [EvFetch (AllDebrid.request_of this hashes)].
Proof.
  intros Hne. unfold run, AllDebrid.checkCache.
  destruct hashes as [|h0 hashes']; [done|]. set (hashes := h0 :: hashes') in *.
  change (length hashes =? 0)%nat with false. cbv iota.
  unfold bind at 1, new_results. change (mkState ∅ (trace init)) with init.
  unfold bind at 1.
  match goal with
  | |- context [try_catch (bind (fetch ?req) ?k) ?h w init] =>
      assert (Hk : forall r, silent w (k r));
      [|assert (Hh : forall e, silent w (h e));
        [|pose proof (fetch_then_silent w req k h init Hk Hh) as Htr;
          by destruct (try_catch (bind (fetch req) k) h w init) as [[[]|e] s1]]]
  end.
  - intros response. apply silent_bind;
      [destruct (negb (ok response)); [apply silent_throw|apply silent_ret]|].
    intros _. apply silent_bind; [apply silent_json|]. intros data.
    apply silent_bind; [apply silent_lift|]. intros st.
    apply silent_bind;
      [destruct (strict_eq_str st "success"); [apply silent_lift|apply silent_ret]|].
    intros inner. apply silent_bind;
      [destruct (truthy inner); [apply silent_lift|apply silent_ret]|].
    intros magnets. destruct (truthy magnets); [|apply silent_ret].
    unfold AllDebrid.forEach_magnets. destruct magnets; try apply silent_throw.
    apply silent_forEachIndexed. intros x i. apply ad_mark_from_silent.
  - intros _. apply silent_forEach. intros h. apply silent_set_result.
Qed.

End OneRequest.

(** For the empty input none of the three clients makes a request: the
    empty map is returned at once. For a non-empty input Torbox and
    AllDebrid make exactly one request, which carries every hash in input
    order, whatever the answer is, and never wait. *)
Theorem checkCache_request_count (w : world) :
  (forall this, run w (RealDebrid.checkCache this []) = (Ok ∅, init))
  /\ (forall this, run w (Torbox.checkCache this []) = (Ok ∅, init))
  /\ (forall this, run w (AllDebrid.checkCache this []) = (Ok ∅, init))
  /\ (forall this hashes,
        hashes <> [] ->
        trace (snd (run w (Torbox.checkCache this hashes)))
        = [EvFetch (Torbox.request_of this hashes)]
        /\ body (Torbox.request_of this hashes)
           = JsonBody (VObj [("hashes", VArr (VStr <$> hashes));
                             ("format", VStr "object"); ("list_files", VBool true)]))
  /\ (forall this hashes,
        hashes <> [] ->
        trace (snd (run w (AllDebrid.checkCache this hashes)))
        = [EvFetch (AllDebrid.request_of this hashes)]
        /\ body (AllDebrid.request_of this hashes)
           = FormBody "magnets[]"
               (join "|" ((fun h => "magnet:?xt=urn:btih:" +:+ h) <$> hashes))).
Proof.
  repeat split; try reflexivity.
  - by apply tb_checkCache_trace.
  - by apply ad_checkCache_trace.
Qed.

(** ** AllDebrid: answers that do not line up with the input *)
Section AllDebridMisaligned.

Import AllDebrid.
Context (w : world) (this : AllDebrid.t).

Lemma get_unreadable v k : unreadable v -> exists e, get v k = Throw e.
Proof. intros [-> | ->]; simpl; eauto. Qed.

(** The loop over the answer throws when the answer is longer than what
    is left of the input, or when it holds an element that cannot be
    read. *)
Lemma ad_forEach_throws hashes : forall magnets i s,
  (i <= length hashes)%nat ->
  (length hashes < i + length magnets)%nat \/ Exists unreadable magnets ->
  exists e s', forEachIndexed i magnets (mark_from hashes) w s = (Throw e, s').
Proof.
  induction magnets as [|mg magnets IH]; intros i s Hi Hbad.
  - destruct Hbad as [Hlen|Hex]; [simpl in Hlen; lia|by apply Exists_nil in Hex].
  - simpl. unfold bind at 1. unfold mark_from at 1.
    destruct (hashes !! i) as [h|] eqn:Hh; [|simpl; eauto].
    apply lookup_lt_Some in Hh.
    unfold bind at 1, lift at 1.
    destruct (get mg "instant") as [instant|e] eqn:Hinst; [|simpl; eauto].
    unfold bind at 1, lift at 1.
    destruct (get mg "files") as [files|e] eqn:Hf; [|simpl; eauto].
    simpl. apply IH; [lia|]. destruct Hbad as [Hlen|Hex].
    + left. simpl in Hlen. lia.
    + apply Exists_cons in Hex as [Hmg|Hex]; [|by right].
      destruct (get_unreadable mg "instant" Hmg) as [e He]. congruence.
Qed.

(** A 2xx answer with status ['success'] whose [magnets] is truthy but
    does not line up: the [catch] branch writes every hash uncached. *)
Lemma ad_misaligned_run hashes r data inner magnets :
  hashes <> [] ->
  net w 0 (request_of this hashes) = Responds r ->
  ok r = true ->
  json_body r = Some data ->
  get data "status" = Ok (VStr "success") ->
  get data "data" = Ok inner -> truthy inner = true ->
  get inner "magnets" = Ok magnets -> truthy magnets = true ->
  (forall items, magnets = VArr items ->
     (length hashes < length items)%nat \/ Exists unreadable items) ->
  exists m s',
    run w (checkCache this hashes) = (Ok m, s')
    /\ forall h, h ∈ hashes -> m !! toLowerCase h = Some uncached.
Proof.
  intros Hne Hnet Hok Hjson Hst Hd Hit Hm Hmt Hbad. unfold run, checkCache.
  destruct hashes as [|h0 hashes']; [done|]. set (hashes := h0 :: hashes') in *.
  change (length hashes =? 0)%nat with false. cbv iota.
  unfold bind at 1, new_results. change (mkState ∅ (trace init)) with init.
  unfold bind at 1, try_catch, bind at 1, fetch.
  change (length (fetches (trace init))) with 0%nat. rewrite Hnet.
  unfold bind at 1. rewrite Hok. cbn [negb]. cbv beta iota. unfold ret at 1.
  unfold bind at 1, json. rewrite Hjson. unfold ret at 1.
  unfold bind at 1, lift at 1. rewrite Hst.
  unfold bind at 1. change (strict_eq_str (VStr "success") "success") with true.
  cbv beta iota. unfold lift at 1. rewrite Hd.
  unfold bind at 1. rewrite Hit. unfold lift at 1. rewrite Hm, Hmt.
  assert (Hthrow : exists e s1,
             forEach_magnets magnets (mark_from hashes) w
               (record (EvFetch (request_of this hashes)) init) = (Throw e, s1)).
  { unfold forEach_magnets. destruct magnets; try (simpl; eauto; fail).
    apply ad_forEach_throws; [lia|]. by apply Hbad. }
  destruct Hthrow as (e & s1 & ->). rewrite ad_mark_uncached_all.
  eexists _, _. split; [reflexivity|]. intros h Hh. by apply mark_all_in.
Qed.

End AllDebridMisaligned.

(** When the [magnets] of a successful AllDebrid answer is not an array,
    is longer than the input, or holds a [null] element, every input
    hash is reported [{ cached: false }] with no files, whatever the
    elements said. *)
Theorem ad_misaligned_answer_all_uncached
    (w : world) (this : AllDebrid.t) (hashes : list string) r data inner magnets :
  hashes <> [] ->
  net w 0 (AllDebrid.request_of this hashes) = Responds r -> ok r = true ->
  json_body r = Some data ->
  get data "status" = Ok (VStr "success") ->
  get data "data" = Ok inner -> truthy inner = true ->
  get inner "magnets" = Ok magnets -> truthy magnets = true ->
  (forall items, magnets = VArr items ->
     (length hashes < length items)%nat \/ Exists unreadable items) ->
  exists m s',
    run w (AllDebrid.checkCache this hashes) = (Ok m, s')
    /\ forall h, h ∈ hashes ->
         m !! toLowerCase h = Some AllDebrid.uncached
         /\ get AllDebrid.uncached "cached" = Ok (VBool false)
         /\ get AllDebrid.uncached "files" = Ok (VArr []).
Proof.
  intros Hne Hnet Hok Hjson Hst Hd Hit Hm Hmt Hbad.
  destruct (ad_misaligned_run w this hashes r data inner magnets
              Hne Hnet Hok Hjson Hst Hd Hit Hm Hmt Hbad) as (m & s' & Hrun & Hall).
  exists m, s'. split; [exact Hrun|]. intros h Hh. split; [by apply Hall|by split].
Qed.

(** One element too many: the first says [instant: true], and still the
    hash comes back uncached. *)
Lemma ad_misaligned_answer_run :
  exists m s',
    run (answers (fun _ => ok_json
           (VObj [("status", VStr "success");
                  ("data", VObj [("magnets",
                     VArr [VObj [("instant", VBool true)];
                           VObj [("instant", VBool true)]])])])))
        (AllDebrid.checkCache (AllDebrid.new "ad-key") [sample_hash])
    = (Ok m, s')
    /\ m !! sample_key = Some AllDebrid.uncached.
Proof.
  destruct (ad_misaligned_answer_all_uncached
              (answers (fun _ => ok_json
                 (VObj [("status", VStr "success");
                        ("data", VObj [("magnets",
                           VArr [VObj [("instant", VBool true)];
                                 VObj [("instant", VBool true)]])])])))
              (AllDebrid.new "ad-key") [sample_hash] _ _ _ _
              ltac:(done) eq_refl eq_refl eq_refl eq_refl eq_refl eq_refl eq_refl eq_refl)
    as (m & s' & Hrun & Hall).
  { intros items Hitems. injection Hitems as <-. left. simpl. lia. }
  exists m, s'. split; [exact Hrun|]. apply (Hall sample_hash). left.
Defined.

(** When a successful AllDebrid answer is shorter than the input, a hash
    at a position the answer does not reach gets no entry at all (unless
    an earlier hash has the same lowercase spelling). *)
Theorem ad_short_answer_leaves_hashes_out
    (w : world) (this : AllDebrid.t) (hashes : list string) r data inner magnets :
  hashes <> [] ->
  net w 0 (AllDebrid.request_of this hashes) = Responds r -> ok r = true ->
  json_body r = Some data ->
  get data "status" = Ok (VStr "success") ->
  get data "data" = Ok inner -> truthy inner = true ->
  get inner "magnets" = Ok (VArr magnets) ->
  Forall readable magnets ->
  (length magnets <= length hashes)%nat ->
  exists m s',
    run w (AllDebrid.checkCache this hashes) = (Ok m, s')
    /\ forall i h,
         hashes !! i = Some h -> (length magnets <= i)%nat ->
         (forall j h', (j < length magnets)%nat -> hashes !! j = Some h' ->
                       toLowerCase h' <> toLowerCase h) ->
         m !! toLowerCase h = None.
Proof.
  intros Hne Hnet Hok Hjson Hst Hd Hit Hm Hall Hlen.
  rewrite (ad_success_run w this hashes r data inner magnets
             Hne Hnet Hok Hjson Hst Hd Hit Hm Hall Hlen).
  eexists _, _. split; [reflexivity|]. intros i h Hh Hi Hearlier.
  rewrite write_zip_other; [apply lookup_empty|exact Hearlier].
Qed.

(** Two hashes, one element: the second hash is no key of the result. *)
Lemma ad_short_answer_run :
  exists m s',
    run (answers (fun _ => ok_json
           (VObj [("status", VStr "success");
                  ("data", VObj [("magnets", VArr [VObj [("instant", VBool true)]])])])))
        (AllDebrid.checkCache (AllDebrid.new "ad-key") [sample_hash; other_hash])
    = (Ok m, s')
    /\ m !! other_hash = None.
Proof.
  destruct (ad_short_answer_leaves_hashes_out
              (answers (fun _ => ok_json
                 (VObj [("status", VStr "success");
                        ("data", VObj [("magnets", VArr [VObj [("instant", VBool true)]])])])))
              (AllDebrid.new "ad-key") [sample_hash; other_hash] _ _ _ _
              ltac:(done) eq_refl eq_refl eq_refl eq_refl eq_refl eq_refl eq_refl)
    as (m & s' & Hrun & Hall).
  { repeat constructor; discriminate. }
  { simpl. lia. }
  exists m, s'. split; [exact Hrun|].
  apply (Hall 1%nat other_hash eq_refl); [simpl; lia|].
  intros j h' Hj Hh'. destruct j as [|j]; [|simpl in Hj; lia].
  injection Hh' as <-. discriminate.
Defined.

(** ** Real-Debrid: what [cached] says on an answered batch *)
Section RealDebridCached.

Import RealDebrid.
Context (w : world) (this : RealDebrid.t).

Lemma forEach_write_all_in (f : string -> M unit) (g : string -> value) :
  forall l,
  (forall h s, h ∈ l ->
     f h w s = (Ok tt, mkState (<[toLowerCase h := g (toLowerCase h)]> (results s))
                               (trace s))) ->
  forall s, forEach l f w s = (Ok tt, mkState (write_all g l (results s)) (trace s)).
Proof.
  induction l as [|h l IH]; intros Hf s; simpl.
  - by destruct s.
  - unfold bind at 1. rewrite Hf by left. rewrite IH; [reflexivity|].
    intros h' s' Hh'. apply Hf. by right.
Qed.

Lemma rd_mark_from_simple props h s :
  rd_simple (own props (toLowerCase h)) ->
  mark_from (VObj props) h w s
  = (Ok tt, mkState (<[toLowerCase h := rd_entry (own props (toLowerCase h))]> (results s))
                    (trace s)).
Proof.
  intros Hsimple. unfold mark_from, bind at 1, lift at 1.
  change (get (VObj props) (toLowerCase h)) with (Ok (own props (toLowerCase h))).
  cbv beta iota. set (ci := own props (toLowerCase h)) in *.
  unfold rd_entry, isCached. destruct Hsimple as [->|[Ht Hrd]]; [reflexivity|].
  rewrite Ht. unfold bind at 1. unfold bind at 1, lift at 1.
  rewrite (get_truthy ci "rd" Ht).
  assert (Hopt : get_opt ci "rd" = Ok (field ci "rd")).
  { unfold get_opt. rewrite <- (get_truthy ci "rd" Ht). by destruct ci. }
  destruct Hrd as [Hrd|[l Hrd]]; rewrite Hrd in *; cbv beta iota.
  - change (truthy VUndef) with false. cbv beta iota.
    unfold ret at 1. unfold bind at 1, lift at 1. rewrite Hopt. reflexivity.
  - change (truthy (VArr l)) with true. cbv beta iota.
    unfold bind at 1, lift at 1.
    replace (get (VArr l) "length") with (Ok (VNum (Z.of_nat (length l)))) by reflexivity.
    cbv beta iota. unfold bind at 1, gt0 at 1. unfold ret at 1.
    unfold bind at 1, lift at 1. rewrite Hopt. reflexivity.
Qed.

(** An input of at most 40 hashes is one batch: one iteration, on the
    whole input. *)
Lemma rd_single_batch (hashes : list string) (body : nat -> M unit) s :
  hashes <> [] -> (length hashes <= batchSize)%nat ->
  for_loop (length hashes) 0 (length hashes) batchSize body w s
  = bind (body 0%nat) (fun _ => ret tt) w s
  /\ slice 0 (0 + batchSize) hashes = hashes
  /\ (0 + batchSize <? length hashes)%nat = false.
Proof.
  intros Hne Hlen. destruct hashes as [|h0 hashes']; [done|].
  set (hashes := h0 :: hashes') in *. split; [|split].
  - change (length hashes) with (S (length hashes')) at 1. cbn [for_loop].
    change (0 <? length hashes)%nat with true. cbv iota.
    unfold bind. destruct (body 0%nat w s) as [[[]|e] s1]; [|reflexivity].
    destruct (length hashes') as [|fuel]; [reflexivity|]. cbn [for_loop].
    destruct (Nat.ltb_spec (0 + batchSize) (length hashes)); [lia|reflexivity].
  - unfold slice. rewrite drop_0. apply take_ge. lia.
  - apply Nat.ltb_ge. lia.
Qed.

Lemma rd_answered_run hashes r props :
  hashes <> [] -> (length hashes <= batchSize)%nat ->
  net w 0 (request_of this hashes) = Responds r -> ok r = true ->
  json_body r = Some (VObj props) ->
  (forall h, h ∈ hashes -> rd_simple (own props (toLowerCase h))) ->
  run w (checkCache this hashes)
  = (Ok (write_all (fun k => rd_entry (own props k)) hashes ∅),
     mkState (write_all (fun k => rd_entry (own props k)) hashes ∅)
             [EvFetch (request_of this hashes)]).
Proof.
  intros Hne Hlen Hnet Hok Hjson Hsimple.
  destruct (rd_single_batch hashes (check_batch this hashes) init Hne Hlen)
    as (Hloop & Hslice & Hlast).
  unfold run, checkCache.
  destruct (Nat.eqb_spec (length hashes) 0) as [H0|_];
    [by destruct hashes|].
  unfold bind at 1, new_results. change (mkState ∅ (trace init)) with init.
  unfold bind at 1. rewrite Hloop.
  unfold bind at 1, check_batch. rewrite Hslice, Hlast.
  unfold try_catch, bind at 1, fetch.
  change (length (fetches (trace init))) with 0%nat. rewrite Hnet.
  unfold bind at 1, json. rewrite Hjson. unfold ret at 1.
  unfold bind at 1. rewrite Hok.
  rewrite (forEach_write_all_in (mark_from (VObj props))
             (fun k => rd_entry (own props k)) hashes
             (fun h s Hh => rd_mark_from_simple props h s (Hsimple h Hh))).
  reflexivity.
Qed.

End RealDebridCached.

(** For an input of 1 to 40 hashes answered 2xx with a JSON object in
    which every requested hash is missing, or has a value whose [rd] is
    missing or an array: the call makes its one request and no delay, and
    a hash is [cached: true] exactly when its [rd] is a non-empty array,
    which is then its [variants]. An empty [rd] gives [cached: false];
    a hash, or an [rd], that is missing gives [cached: undefined], not
    [false], with empty [variants]. *)
Theorem rd_cached_iff_variants
    (w : world) (this : RealDebrid.t) (hashes : list string) r props :
  hashes <> [] -> (length hashes <= RealDebrid.batchSize)%nat ->
  net w 0 (RealDebrid.request_of this hashes) = Responds r -> ok r = true ->
  json_body r = Some (VObj props) ->
  (forall h, h ∈ hashes -> rd_simple (own props (toLowerCase h))) ->
  exists m s',
    run w (RealDebrid.checkCache this hashes) = (Ok m, s')
    /\ trace s' = [EvFetch (RealDebrid.request_of this hashes)]
    /\ forall h, h ∈ hashes ->
         let cacheInfo := own props (toLowerCase h) in
         exists e,
           m !! toLowerCase h = Some e
           /\ (forall x l, truthy cacheInfo = true -> field cacheInfo "rd" = VArr (x :: l) ->
                 get e "cached" = Ok (VBool true)
                 /\ get e "variants" = Ok (VArr (x :: l)))
           /\ (truthy cacheInfo = true -> field cacheInfo "rd" = VArr [] ->
                 get e "cached" = Ok (VBool false) /\ get e "variants" = Ok (VArr []))
           /\ (cacheInfo = VUndef \/ field cacheInfo "rd" = VUndef ->
                 get e "cached" = Ok VUndef /\ get e "variants" = Ok (VArr [])).
Proof.
  intros Hne Hlen Hnet Hok Hjson Hsimple.
  rewrite (rd_answered_run w this hashes r props Hne Hlen Hnet Hok Hjson Hsimple).
  eexists _, _. split; [reflexivity|]. split; [reflexivity|].
  intros h Hh cacheInfo. exists (rd_entry cacheInfo).
  split; [by apply (write_all_in (fun k => rd_entry (own props k)))|].
  unfold rd_entry. split; [|split].
  - intros x l -> ->. by split.
  - intros -> ->. by split.
  - intros [->| Hrd]; [by split|]. rewrite Hrd. by destruct (truthy cacheInfo).
Qed.

(** Real-Debrid's answer lists one hash with a variant, one with an empty
    array (its way of saying no), and leaves a third out. *)
Lemma rd_cached_iff_variants_run :
  exists m s',
    run (answers (fun _ => ok_json
           (VObj [(sample_key, VObj [("rd", VArr [VObj [("1", VObj [])]])]);
                  (other_hash, VArr [])])))
        (RealDebrid.checkCache (RealDebrid.new "rd-key")
           [sample_hash; other_hash; "ABCDEF"])
    = (Ok m, s')
    /\ (exists e, m !! sample_key = Some e /\ get e "cached" = Ok (VBool true))
    /\ (exists e, m !! other_hash = Some e /\ get e "cached" = Ok VUndef)
    /\ (exists e, m !! "abcdef" = Some e /\ get e "cached" = Ok VUndef).
Proof.
  destruct (rd_cached_iff_variants
              (answers (fun _ => ok_json
                 (VObj [(sample_key, VObj [("rd", VArr [VObj [("1", VObj [])]])]);
                        (other_hash, VArr [])])))
              (RealDebrid.new "rd-key") [sample_hash; other_hash; "ABCDEF"] _ _
              ltac:(done) ltac:(vm_compute; lia) eq_refl eq_refl eq_refl)
    as (m & s' & Hrun & _ & Hall).
  { intros h Hh. repeat (apply elem_of_cons in Hh as [->|Hh]).
    - right. split; [reflexivity|]. right. by eexists.
    - right. split; [reflexivity|]. by left.
    - by left.
    - by apply elem_of_nil in Hh. }
  exists m, s'. split; [exact Hrun|]. split; [|split].
  - destruct (Hall sample_hash ltac:(left)) as (e & He & Hlisted & _).
    exists e. split; [exact He|]. by eapply Hlisted.
  - destruct (Hall other_hash ltac:(right; left)) as (e & He & _ & _ & Hmissing).
    exists e. split; [exact He|]. apply Hmissing. by right.
  - destruct (Hall "ABCDEF" ltac:(right; right; left)) as (e & He & _ & _ & Hmissing).
    exists e. split; [exact He|]. apply Hmissing. by left.
Defined.

(** ** The identifier lookups in every world *)
Section IdConverterTotal.

Import IdConverter.
Context (w : world).

Lemma yields_ret {A} (P : A -> Prop) a : P a -> yields w P (ret a).
Proof. intros HP s. exact HP. Qed.

Lemma yields_bind {A B} (P : B -> Prop) (m : M A) (k : A -> M B) :
  (forall a, yields w P (k a)) -> yields w P (bind m k).
Proof.
  intros Hk s. unfold bind. destruct (m w s) as [[a|e] s1]; [apply Hk|exact I].
Qed.

Lemma yields_try_catch {A} (P : A -> Prop) (m : M A) (h : exn -> M A) :
  yields w P m -> (forall e, yields w P (h e)) -> yields w P (try_catch m h).
Proof.
  intros Hm Hh s. unfold try_catch. specialize (Hm s).
  destruct (m w s) as [[a|e] s1]; [exact Hm|apply Hh].
Qed.

Lemma has_results_silent v : silent w (has_results v).
Proof.
  unfold has_results. destruct (truthy v); [|apply silent_ret].
  apply silent_bind; [apply silent_lift|]. intros len. apply silent_gt0.
Qed.

Lemma first_field_silent v k : silent w (first_field v k).
Proof.
  unfold first_field. apply silent_bind; [apply silent_lift|].
  intros first. apply silent_lift.
Qed.

Lemma well_formed_null : well_formed_conversion (conversion VNull VNull).
Proof. by left. Qed.

Lemma well_formed_movie v : well_formed_conversion (conversion v (VStr "movie")).
Proof. right. exists v. by left. Qed.

Lemma well_formed_series v : well_formed_conversion (conversion v (VStr "series")).
Proof. right. exists v. by right. Qed.

Lemma imdbToTmdb_yields imdbId : yields w well_formed_conversion (imdbToTmdb imdbId).
Proof.
  unfold imdbToTmdb. destruct imdbId as [id|]; [|apply yields_ret, well_formed_null].
  destruct (negb (truthy (VStr id)) || negb (startsWith id "tt"));
    [apply yields_ret, well_formed_null|].
  apply yields_try_catch; [|intros _; apply yields_ret, well_formed_null].
  apply yields_bind. intros response.
  destruct (negb (ok response)); [apply yields_ret, well_formed_null|].
  apply yields_bind. intros data. apply yields_bind. intros movie_results.
  apply yields_bind. intros [|].
  { apply yields_bind. intros v. apply yields_ret, well_formed_movie. }
  apply yields_bind. intros tv_results. apply yields_bind. intros [|].
  { apply yields_bind. intros v. apply yields_ret, well_formed_series. }
  apply yields_bind. intros tv_episode_results. apply yields_bind. intros [|].
  { apply yields_bind. intros v. apply yields_ret, well_formed_series. }
  apply yields_ret, well_formed_null.
Qed.

Lemma imdbToTmdb_returns imdbId : returns w (imdbToTmdb imdbId).
Proof.
  unfold imdbToTmdb. destruct imdbId as [id|]; [|apply returns_ret].
  destruct (negb (truthy (VStr id)) || negb (startsWith id "tt")); [apply returns_ret|].
  apply returns_try_catch. intros _. apply returns_ret.
Qed.

Lemma imdbToTmdb_trace imdbId s :
  trace (snd (imdbToTmdb imdbId w s)) = trace s
  \/ exists id, imdbId = Some id /\ startsWith id "tt" = true
                /\ trace (snd (imdbToTmdb imdbId w s)) = trace s ++ [EvFetch (find_request id)].
Proof.
  unfold imdbToTmdb. destruct imdbId as [id|]; [|by left].
  destruct (startsWith id "tt") eqn:Htt;
    [|left; by rewrite orb_true_r].
  rewrite (startsWith_tt_truthy id Htt). cbn [negb orb].
  right. exists id. split; [reflexivity|]. split; [exact Htt|].
  apply fetch_then_silent; [|intros _; apply silent_ret].
  intros response. destruct (negb (ok response)); [apply silent_ret|].
  apply silent_bind; [apply silent_json|]. intros data.
  apply silent_bind; [apply silent_lift|]. intros movie_results.
  apply silent_bind; [apply has_results_silent|]. intros [|].
  { apply silent_bind; [apply first_field_silent|]. intros v. apply silent_ret. }
  apply silent_bind; [apply silent_lift|]. intros tv_results.
  apply silent_bind; [apply has_results_silent|]. intros [|].
  { apply silent_bind; [apply first_field_silent|]. intros v. apply silent_ret. }
  apply silent_bind; [apply silent_lift|]. intros tv_episode_results.
  apply silent_bind; [apply has_results_silent|]. intros [|].
  { apply silent_bind; [apply first_field_silent|]. intros v. apply silent_ret. }
  apply silent_ret.
Qed.

(** A lookup that got no usable answer: the transport threw, the answer
    is not 2xx, or its body does not parse or is [null]. *)
Lemma imdbToTmdb_unanswered id :
  startsWith id "tt" = true ->
  failed (net w 0 (find_request id))
  \/ (exists r, net w 0 (find_request id) = Responds r
                /\ (json_body r = None \/ json_body r = Some VNull)) ->
  fst (run w (imdbToTmdb (Some id))) = Ok (conversion VNull VNull).
Proof.
  intros Htt Hbad. rewrite (imdbToTmdb_unfold id Htt).
  unfold run, try_catch, bind at 1, fetch.
  change (length (fetches (trace init))) with 0%nat.
  destruct (net w 0 (find_request id)) as [e|r]; [reflexivity|].
  destruct (ok r) eqn:Hok; [|reflexivity]. cbn [negb]. cbv beta iota.
  destruct Hbad as [Hfail|(r' & Hr & Hbody)]; [simpl in Hfail; congruence|].
  injection Hr as <-. unfold bind at 1, json.
  destruct Hbody as [-> | ->]; reflexivity.
Qed.

End IdConverterTotal.

(** In every world and for every argument [imdbToTmdb] returns and does
    not throw; it makes no request, or the one [find] request of an id
    that starts with ["tt"]; what it returns is [{ tmdbId, type }] with
    type ['movie'] or ['series'], or both [null]; and when the request
    fails, or the body does not parse or is [null], both are [null]. *)
Theorem imdbToTmdb_never_throws (w : world) (imdbId : option string) :
  exists v s',
    run w (IdConverter.imdbToTmdb imdbId) = (Ok v, s')
    /\ well_formed_conversion v
    /\ (trace s' = []
        \/ exists id, imdbId = Some id /\ startsWith id "tt" = true
                      /\ trace s' = [EvFetch (IdConverter.find_request id)])
    /\ (forall id, imdbId = Some id -> startsWith id "tt" = true ->
          failed (net w 0 (IdConverter.find_request id))
          \/ (exists r, net w 0 (IdConverter.find_request id) = Responds r
                        /\ (json_body r = None \/ json_body r = Some VNull)) ->
          v = IdConverter.conversion VNull VNull).
Proof.
  pose proof (imdbToTmdb_yields w imdbId init) as Hwf.
  pose proof (imdbToTmdb_trace w imdbId init) as Htr.
  destruct (imdbToTmdb_returns w imdbId init) as [v Hv].
  unfold run. destruct (IdConverter.imdbToTmdb imdbId w init) as [r s'] eqn:Hrun.
  simpl in *. subst r. exists v, s'. split; [reflexivity|]. split; [exact Hwf|].
  split; [exact Htr|].
  intros id -> Htt Hbad.
  pose proof (imdbToTmdb_unanswered w id Htt Hbad) as Hnull.
  unfold run in Hnull. rewrite Hrun in Hnull. simpl in Hnull. congruence.
Qed.

Section TmdbToImdbTotal.

Import IdConverter.
Context (w : world).

Lemma tmdbToImdb_yields tmdbId type :
  yields w (fun v => v = VNull \/ truthy v = true) (tmdbToImdb tmdbId type).
Proof.
  unfold tmdbToImdb. destruct tmdbId as [n|], type as [ty|];
    try (apply yields_ret; by left).
  destruct (negb (truthy (VNum n)) || negb (truthy (VStr ty)));
    [apply yields_ret; by left|].
  apply yields_try_catch; [|intros _; apply yields_ret; by left].
  apply yields_bind. intros response.
  destruct (negb (ok response)); [apply yields_ret; by left|].
  apply yields_bind. intros data. apply yields_bind. intros external_ids.
  destruct (truthy external_ids); [|apply yields_ret; by left].
  apply yields_bind. intros imdbId.
  destruct (truthy imdbId) eqn:Ht; apply yields_ret; [by right|by left].
Qed.

Lemma tmdbToImdb_returns tmdbId type : returns w (tmdbToImdb tmdbId type).
Proof.
  unfold tmdbToImdb. destruct tmdbId as [n|], type as [ty|]; try apply returns_ret.
  destruct (negb (truthy (VNum n)) || negb (truthy (VStr ty))); [apply returns_ret|].
  apply returns_try_catch. intros _. apply returns_ret.
Qed.

Lemma tmdbToImdb_trace tmdbId type s :
  trace (snd (tmdbToImdb tmdbId type w s)) = trace s
  \/ exists n ty,
       tmdbId = Some n /\ type = Some ty /\ n <> 0 /\ ty <> ""
       /\ trace (snd (tmdbToImdb tmdbId type w s))
          = trace s ++ [EvFetch (details_request
                                   (if String.eqb ty "series" then "tv" else "movie") n)].
Proof.
  unfold tmdbToImdb. destruct tmdbId as [n|], type as [ty|]; try by left.
  destruct (negb (truthy (VNum n)) || negb (truthy (VStr ty))) eqn:Hguard; [by left|].
  apply orb_false_iff in Hguard as [Hn Hty].
  apply negb_false_iff in Hn, Hty. simpl in Hn, Hty.
  right. exists n, ty. split; [reflexivity|]. split; [reflexivity|].
  split; [by destruct (Z.eqb_spec n 0)|]. split; [by destruct (String.eqb_spec ty "")|].
  unfold strict_eq_str. cbv zeta.
  apply fetch_then_silent; [|intros _; apply silent_ret].
  intros response. destruct (negb (ok response)); [apply silent_ret|].
  apply silent_bind; [apply silent_json|]. intros data.
  apply silent_bind; [apply silent_lift|]. intros external_ids.
  destruct (truthy external_ids); [|apply silent_ret].
  apply silent_bind; [apply silent_lift|]. intros imdbId.
  destruct (truthy imdbId); apply silent_ret.
Qed.

End TmdbToImdbTotal.

(** In every world and for every argument [tmdbToImdb] returns and does
    not throw. What it returns is [null] or a truthy value (never an
    empty string or [undefined]). It makes no request, or one request for
    a non-zero id and a non-empty type, to the [tv] endpoint when the
    type is ['series'] and to the [movie] endpoint for every other type
    (['tv'] and ['Series'] included). *)
Theorem tmdbToImdb_never_throws (w : world) (tmdbId : option Z) (type : option string) :
  exists v s',
    run w (IdConverter.tmdbToImdb tmdbId type) = (Ok v, s')
    /\ (v = VNull \/ truthy v = true)
    /\ (trace s' = []
        \/ exists n ty,
             tmdbId = Some n /\ type = Some ty /\ n <> 0 /\ ty <> ""
             /\ trace s' = [EvFetch (IdConverter.details_request
                                       (if String.eqb ty "series" then "tv" else "movie")
                                       n)]).
Proof.
  pose proof (tmdbToImdb_yields w tmdbId type init) as Hv.
  pose proof (tmdbToImdb_trace w tmdbId type init) as Htr.
  destruct (tmdbToImdb_returns w tmdbId type init) as [v Hok].
  unfold run. destruct (IdConverter.tmdbToImdb tmdbId type w init) as [r s'].
  simpl in *. subst r. exists v, s'. by repeat split.
Qed.

(** In every world and for every argument [completeIds] returns
    [{ imdbId, tmdbId }] and does not throw, after at most one request.
    An IMDb id that is given (truthy) is returned as it is; a TMDb id
    that is given is returned as it is; with both given, or neither, no
    request is made, and with neither both are [null]. An IMDb id that
    had to be looked up comes back [null] or truthy. *)
Theorem completeIds_never_throws
    (w : world) (imdbId : option string) (tmdbId : option Z) (type : option string) :
  exists a b s',
    run w (IdConverter.completeIds imdbId tmdbId type) = (Ok (IdConverter.id_pair a b), s')
    /\ (length (trace s') <= 1)%nat
    /\ (truthy (IdConverter.str_or_null imdbId) = true ->
          a = IdConverter.str_or_null imdbId)
    /\ (truthy (IdConverter.num_or_null tmdbId) = true ->
          b = IdConverter.num_or_null tmdbId)
    /\ (truthy (IdConverter.str_or_null imdbId) = truthy (IdConverter.num_or_null tmdbId) ->
          trace s' = [])
    /\ (truthy (IdConverter.str_or_null imdbId) = false ->
          a = VNull \/ truthy a = true)
    /\ (truthy (IdConverter.str_or_null imdbId) = false ->
        truthy (IdConverter.num_or_null tmdbId) = false ->
          a = VNull /\ b = VNull).
Proof.
  unfold run, IdConverter.completeIds.
  destruct (truthy (IdConverter.str_or_null imdbId)) eqn:Ha,
           (truthy (IdConverter.num_or_null tmdbId)) eqn:Hb; cbn [andb negb]; cbv beta iota.
  - eexists _, _, _. split; [reflexivity|]. simpl. repeat split; try done; lia.
  - unfold bind at 1.
    pose proof (imdbToTmdb_yields w imdbId init) as Hwf.
    pose proof (imdbToTmdb_trace w imdbId init) as Htr.
    destruct (imdbToTmdb_returns w imdbId init) as [v Hv].
    destruct (IdConverter.imdbToTmdb imdbId w init) as [r s'].
    simpl in *. subst r.
    assert (Hget : exists x, get v "tmdbId" = Ok x).
    { destruct Hwf as [->|(x & [->| ->])]; by eexists. }
    destruct Hget as [x Hx]. unfold bind at 1, lift at 1. rewrite Hx.
    eexists _, _, _. split; [reflexivity|]. simpl. repeat split; try done.
    destruct Htr as [->|(id & _ & _ & ->)]; simpl; lia.
  - unfold bind at 1.
    pose proof (tmdbToImdb_yields w tmdbId type init) as Hv.
    pose proof (tmdbToImdb_trace w tmdbId type init) as Htr.
    destruct (tmdbToImdb_returns w tmdbId type init) as [v Hok].
    destruct (IdConverter.tmdbToImdb tmdbId type w init) as [r s'].
    simpl in *. subst r.
    eexists _, _, _. split; [reflexivity|]. simpl. repeat split; try done.
    destruct Htr as [->|(n & ty & _ & _ & _ & _ & ->)]; simpl; lia.
  - eexists _, _, _. split; [reflexivity|]. simpl. repeat split; try done; try lia.
    by left.
Qed.

(** * The factory and the aggregator *)

Section Factory.

Import Registry.

Lemma accepted_usable use key : accepted use key = usable_key use key.
Proof.
  unfold accepted, usable_key. destruct key as [k|]; [|reflexivity].
  destruct use; [|reflexivity]. destruct k as [|a k]; reflexivity.
Qed.

Lemma usable_key_Some use key k :
  usable_key use key = Some k <-> use = true /\ key = Some k /\ (5 < String.length k)%nat.
Proof.
  unfold usable_key. destruct key as [k'|].
  2:{ split; [discriminate|]. by intros (_ & Hk & _). }
  destruct use; simpl.
  2:{ split; [discriminate|]. by intros (Hu & _). }
  destruct (Nat.ltb_spec 5 (String.length k')) as [Hlen|Hlen]; split.
  - intros [= ->]. by repeat split.
  - by intros (_ & [= ->] & _).
  - discriminate.
  - intros (_ & [= ->] & Hk). lia.
Qed.

Lemma createDebridServices_fields c :
  createDebridServices c
  = mkInstances (RealDebrid.new <$> usable_key (use_rd c) (rd_key c))
                (Torbox.new <$> usable_key (use_torbox c) (torbox_key c))
                (AllDebrid.new <$> usable_key (use_alldebrid c) (alldebrid_key c))
                (bool_decide (is_Some (usable_key (use_rd c) (rd_key c))))
                (bool_decide (is_Some (usable_key (use_torbox c) (torbox_key c))))
                (bool_decide (is_Some (usable_key (use_alldebrid c) (alldebrid_key c)))).
Proof.
  unfold createDebridServices. rewrite !accepted_usable.
  destruct (usable_key (use_rd c) (rd_key c)),
           (usable_key (use_torbox c) (torbox_key c)),
           (usable_key (use_alldebrid c) (alldebrid_key c)); reflexivity.
Qed.

End Factory.

(** [createDebridServices] builds a provider exactly when its switch is
    on and its key has at least six characters, whatever the other two
    providers are configured with. The instance then holds that key and
    the provider's base URL, and a flag is set exactly when its instance
    is there, so the two tests of [checkAllDebridCaches] agree on what
    the factory returns. *)
Theorem createDebridServices_enables_by_key (c : Registry.config) :
  let i := Registry.createDebridServices c in
  (Registry.realdebrid i
   = RealDebrid.new <$> usable_key (Registry.use_rd c) (Registry.rd_key c)
   /\ Registry.torbox i
      = Torbox.new <$> usable_key (Registry.use_torbox c) (Registry.torbox_key c)
   /\ Registry.alldebrid i
      = AllDebrid.new <$> usable_key (Registry.use_alldebrid c) (Registry.alldebrid_key c))
  /\ (Registry.useRealDebrid i = true <-> is_Some (Registry.realdebrid i))
  /\ (Registry.useTorbox i = true <-> is_Some (Registry.torbox i))
  /\ (Registry.useAllDebrid i = true <-> is_Some (Registry.alldebrid i))
  /\ (forall use key k,
        usable_key use key = Some k
        <-> use = true /\ key = Some k /\ (6 <= String.length k)%nat).
Proof.
  intros i. subst i. rewrite createDebridServices_fields. simpl.
  split; [done|].
  split; [by rewrite bool_decide_eq_true, fmap_is_Some|].
  split; [by rewrite bool_decide_eq_true, fmap_is_Some|].
  split; [by rewrite bool_decide_eq_true, fmap_is_Some|].
  intros use key k. rewrite usable_key_Some. split.
  - intros (Hu & Hk & Hlen). repeat split; [assumption..|lia].
  - intros (Hu & Hk & Hlen). repeat split; [assumption..|lia].
Qed.

Section Configured.

Import Aggregator.

Lemma check_other name name' use provider hashes p :
  name <> name' ->
  cacheResults (check name use provider hashes p) !! name' = cacheResults p !! name'.
Proof.
  intros Hne. unfold check. destruct use, provider as [c|]; try reflexivity.
  destruct (c hashes); simpl; [by rewrite lookup_insert_ne|reflexivity].
Qed.

Lemma check_off name use hashes p :
  check name use None hashes p = p.
Proof. unfold check. by destruct use. Qed.

Lemma check_on name c hashes p m :
  c hashes = Ok m ->
  check name true (Some c) hashes p
  = mkProgress (<[name := m]> (cacheResults p)) (invoked p ++ [name]).
Proof. intros Hc. unfold check. by rewrite Hc. Qed.

Lemma check_invoked name use provider hashes p :
  invoked (check name use provider hashes p) = invoked p
  \/ invoked (check name use provider hashes p) = invoked p ++ [name].
Proof.
  unfold check. destruct use, provider as [c|]; try by left.
  destruct (c hashes); by right.
Qed.

Lemma check_invoked_other name name' use provider hashes p :
  name <> name' ->
  name' ∈ invoked (check name use provider hashes p) <-> name' ∈ invoked p.
Proof.
  intros Hne. destruct (check_invoked name use provider hashes p) as [->| ->]; [done|].
  rewrite elem_of_app, list_elem_of_singleton. split; [|by left].
  intros [Hin|Heq]; [assumption|by destruct Hne].
Qed.

(** One provider of the factory, checked from any progress whose entry
    for it is still empty and which has not called it. *)
Lemma check_configured {T} (w : world) (new : string -> T)
    (checkCache : T -> list string -> M (gmap string value))
    name use key hashes p :
  (forall this s, exists m s',
      checkCache this hashes w s = (Ok m, s') /\ keys_within hashes m) ->
  cacheResults p !! name = Some ∅ ->
  name ∉ invoked p ->
  let o := new <$> usable_key use key in
  configured
    (check name (bool_decide (is_Some (usable_key use key)))
           ((fun this => as_client w (checkCache this)) <$> o) hashes p)
    hashes name use key (fun k => run w (checkCache (new k) hashes)).
Proof.
  intros Hcall Hempty Hnot o. subst o. unfold configured.
  destruct (usable_key use key) as [k|]; cbn [fmap option_fmap option_map].
  - destruct (Hcall (new k) init) as (m & s' & Hrun & Hkeys).
    rewrite bool_decide_eq_true_2 by eauto.
    rewrite (check_on _ _ _ _ m) by (unfold as_client, run; by rewrite Hrun).
    simpl. split; [set_solver|].
    exists m, s'. unfold run. by rewrite lookup_insert_eq.
  - by rewrite check_off.
Qed.

End Configured.

(** The factory and the aggregator together: for every configuration,
    every list of hashes and every world per provider,
    [checkAllDebridCaches] on what [createDebridServices] built calls
    exactly the providers with a usable key. Each of them returns a map
    (the handler for a rejected check is never reached by the three
    shipped clients), that map is the provider's entry and its keys are
    lowercased input hashes; the Real-Debrid map has an entry for every
    hash. A provider without a usable key is not called and its entry is
    the empty map. *)
Theorem configured_providers_checked
    (w_rd w_tb w_ad : world) (c : Registry.config) (hashes : list string) :
  let p := Aggregator.checkAllDebridCaches hashes
             (Registry.as_services w_rd w_tb w_ad (Registry.createDebridServices c)) in
  configured p hashes "realdebrid" (Registry.use_rd c) (Registry.rd_key c)
    (fun k => run w_rd (RealDebrid.checkCache (RealDebrid.new k) hashes))
  /\ configured p hashes "torbox" (Registry.use_torbox c) (Registry.torbox_key c)
       (fun k => run w_tb (Torbox.checkCache (Torbox.new k) hashes))
  /\ configured p hashes "alldebrid" (Registry.use_alldebrid c) (Registry.alldebrid_key c)
       (fun k => run w_ad (AllDebrid.checkCache (AllDebrid.new k) hashes))
  /\ (forall k, usable_key (Registry.use_rd c) (Registry.rd_key c) = Some k ->
        total_on hashes (run w_rd (RealDebrid.checkCache (RealDebrid.new k) hashes))).
Proof.
  intros p. subst p. rewrite createDebridServices_fields.
  unfold Aggregator.checkAllDebridCaches, Registry.as_services. cbn [
    Registry.realdebrid Registry.torbox Registry.alldebrid
    Registry.useRealDebrid Registry.useTorbox Registry.useAllDebrid
    Aggregator.realdebrid Aggregator.torbox Aggregator.alldebrid
    Aggregator.useRealDebrid Aggregator.useTorbox Aggregator.useAllDebrid].
  set (p0 := Aggregator.mkProgress _ []).
  set (u_rd := usable_key (Registry.use_rd c) (Registry.rd_key c)).
  set (u_tb := usable_key (Registry.use_torbox c) (Registry.torbox_key c)).
  set (u_ad := usable_key (Registry.use_alldebrid c) (Registry.alldebrid_key c)).
  set (p1 := Aggregator.check "realdebrid" _ _ hashes p0).
  set (p2 := Aggregator.check "torbox" _ _ hashes p1).
  set (p3 := Aggregator.check "alldebrid" _ _ hashes p2).
  assert (H1 : configured p1 hashes "realdebrid" (Registry.use_rd c) (Registry.rd_key c)
                 (fun k => run w_rd (RealDebrid.checkCache (RealDebrid.new k) hashes))).
  { apply (check_configured w_rd RealDebrid.new RealDebrid.checkCache).
    - intros this s. apply rd_checkCache_keys.
    - reflexivity.
    - apply not_elem_of_nil. }
  assert (H2 : configured p2 hashes "torbox" (Registry.use_torbox c) (Registry.torbox_key c)
                 (fun k => run w_tb (Torbox.checkCache (Torbox.new k) hashes))).
  { apply (check_configured w_tb Torbox.new Torbox.checkCache).
    - intros this s. apply tb_checkCache_keys.
    - unfold p1. by rewrite check_other.
    - unfold p1. by rewrite check_invoked_other; [apply not_elem_of_nil|]. }
  assert (H3 : configured p3 hashes "alldebrid"
                 (Registry.use_alldebrid c) (Registry.alldebrid_key c)
                 (fun k => run w_ad (AllDebrid.checkCache (AllDebrid.new k) hashes))).
  { apply (check_configured w_ad AllDebrid.new AllDebrid.checkCache).
    - intros this s. apply ad_checkCache_keys.
    - unfold p2, p1. by rewrite !check_other.
    - unfold p2, p1. by rewrite !check_invoked_other; [apply not_elem_of_nil| |]. }
  assert (Hlater : forall (q q' : Aggregator.progress) name use key call,
             (forall n, n = name -> Aggregator.cacheResults q' !! n
                                    = Aggregator.cacheResults q !! n) ->
             (name ∈ Aggregator.invoked q' <-> name ∈ Aggregator.invoked q) ->
             configured q hashes name use key call ->
             configured q' hashes name use key call).
  { intros q q' name use key call Hres Hinv. unfold configured.
    destruct (usable_key use key); rewrite Hinv, (Hres name eq_refl); done. }
  split; [|split; [|split]].
  - apply (Hlater p1); [| |exact H1].
    + intros n ->. unfold p3, p2. by rewrite !check_other.
    + unfold p3, p2. by rewrite !check_invoked_other.
  - apply (Hlater p2); [| |exact H2].
    + intros n ->. unfold p3. by rewrite check_other.
    + unfold p3. by rewrite check_invoked_other.
  - exact H3.
  - intros k _. apply rd_checkCache_entries.
Qed.

(** * The account calls *)

Section AccountCalls.

Context (w : world).

(** The shape the wrappers share: one request, a throw built by [onfail]
    on an answer outside 2xx, the parsed body otherwise. *)
Lemma passes_through_intro req (onfail : response -> M value) :
  (forall r, silent w (onfail r)) ->
  (forall r s, exists e, fst (onfail r w s) = Throw e) ->
  passes_through w req
    (bind (fetch req) (fun response =>
       if negb (ok response) then onfail response else json response)).
Proof.
  intros Hsilent Hthrows. unfold passes_through, run. split; [|split; [|split]].
  - apply (fetch_then_silent_bare w req _ init).
    intros r. destruct (negb (ok r)); [apply Hsilent|apply silent_json].
  - intros e He. unfold bind, fetch. simpl. by rewrite He.
  - intros r Hr Hok. unfold bind, fetch. simpl. rewrite Hr, Hok. simpl.
    apply Hthrows.
  - intros r Hr Hok. unfold bind, fetch. simpl. rewrite Hr, Hok. simpl.
    unfold json. by destruct (json_body r).
Qed.

Lemma json_or_empty_run r s :
  Torbox.json_or_empty r w s
  = (Ok (match json_body r with Some v => v | None => VObj [] end), s).
Proof. unfold Torbox.json_or_empty, try_catch, json. by destruct (json_body r). Qed.

Lemma fail_with_run prefix member r s :
  fail_with prefix member r w s
  = (match get (match json_body r with Some v => v | None => VObj [] end) member with
     | Throw e => Throw e
     | Ok detail =>
         match to_string (or_else detail (VStr "Unknown")) with
         | Throw e => Throw e
         | Ok text =>
             Throw (Error (prefix +:+ num_to_string (status r) +:+ " - " +:+ text))
         end
     end, s).
Proof.
  unfold fail_with. unfold bind at 1. rewrite json_or_empty_run.
  unfold bind, lift, throw.
  destruct (get _ member) as [detail|e]; [|reflexivity].
  by destruct (to_string _).
Qed.

Lemma fail_with_silent prefix member r : silent w (fail_with prefix member r).
Proof. intros s. by rewrite fail_with_run. Qed.

Lemma fail_with_throws prefix member r s :
  exists e, fst (fail_with prefix member r w s) = Throw e.
Proof.
  rewrite fail_with_run. simpl.
  destruct (get _ member) as [detail|e]; [|by eexists].
  destruct (to_string _); by eexists.
Qed.

(** A wrapper whose failure path is [fail_with], asked in a world that
    answers [r] outside 2xx. *)
Lemma fail_with_reports req prefix member r :
  net w 0 req = Responds r -> ok r = false ->
  reports_detail w
    (bind (fetch req) (fun response =>
       if negb (ok response) then fail_with prefix member response else json response))
    prefix member r.
Proof.
  intros Hr Hok.
  assert (Hrun : forall m, m = bind (fetch req) (fun response =>
             if negb (ok response) then fail_with prefix member response
             else json response) ->
           fst (run w m) = fst (fail_with prefix member r w (record (EvFetch req) init))).
  { intros m ->. unfold run, bind, fetch. simpl. by rewrite Hr, Hok. }
  unfold reports_detail, reports. rewrite (Hrun _ eq_refl), fail_with_run. simpl.
  split; [|split; [|split]].
  - intros ->. reflexivity.
  - intros props -> Hfalsy. simpl. unfold or_else. by rewrite Hfalsy.
  - intros props text -> Hown Hne. simpl. rewrite Hown. unfold or_else. simpl.
    by destruct text.
  - intros ->. reflexivity.
Qed.

End AccountCalls.

(** The calls that wrap one request hide no failure, unlike the cache
    checks. In every world each of [RealDebrid.getTorrents],
    [getTorrentInfo], [getUser], [Torbox.addMagnet],
    [AllDebrid.addMagnet] and [AllDebrid.unrestrictLink] makes exactly its
    one request; a transport error is thrown on unchanged; an answer
    outside 2xx always ends in a throw; and a 2xx answer gives the parsed
    body, or the parse error when the body does not parse. *)
Theorem account_calls_pass_through (w : world) :
  (forall this,
     passes_through w (RealDebrid.torrents_request this) (RealDebrid.getTorrents this))
  /\ (forall this id,
        passes_through w (RealDebrid.info_request this id)
                       (RealDebrid.getTorrentInfo this id))
  /\ (forall this,
        passes_through w (RealDebrid.user_request this) (RealDebrid.getUser this))
  /\ (forall this magnet,
        passes_through w (Torbox.create_request this magnet)
                       (Torbox.addMagnet this magnet))
  /\ (forall this magnet,
        passes_through w (AllDebrid.upload_request this magnet)
                       (AllDebrid.addMagnet this magnet))
  /\ (forall this link,
        passes_through w (AllDebrid.unlock_request this link)
                       (AllDebrid.unrestrictLink this link)).
Proof.
  split; [|split; [|split; [|split; [|split]]]]; intros.
  - apply (passes_through_intro w _
             (fun r => throw (Error ("Failed to get torrents list from Real-Debrid: "
                                     +:+ num_to_string (status r)))));
      [intros r; apply silent_throw|intros r s; by eexists].
  - apply (passes_through_intro w _
             (fun r => throw (Error ("Failed to get torrent info from Real-Debrid: "
                                     +:+ num_to_string (status r)))));
      [intros r; apply silent_throw|intros r s; by eexists].
  - apply (passes_through_intro w _
             (fun r => throw (Error ("Failed to get user info: "
                                     +:+ num_to_string (status r)))));
      [intros r; apply silent_throw|intros r s; by eexists].
  - apply (passes_through_intro w _ (fail_with "Torbox addMagnet error: " "error"));
      [intros r; apply fail_with_silent|intros r s; apply fail_with_throws].
  - apply (passes_through_intro w _ (fail_with "AllDebrid addMagnet error: " "detail"));
      [intros r; apply fail_with_silent|intros r s; apply fail_with_throws].
  - apply (passes_through_intro w _ (fail_with "AllDebrid unrestrict error: " "detail"));
      [intros r; apply fail_with_silent|intros r s; apply fail_with_throws].
Qed.

(** What the caller of an upload or unlock learns from an answer outside
    2xx: an [Error] naming the call, the status and the detail of the
    body ([error] for Torbox, [detail] for AllDebrid), or ["Unknown"]
    when the body does not parse or has no truthy detail. The body
    [null] parses, so reading its detail throws a [TypeError] in place of
    the error with the status. *)
Theorem failed_upload_names_status_and_detail (w : world) (r : response) :
  ok r = false ->
  (forall this magnet,
     net w 0 (Torbox.create_request this magnet) = Responds r ->
     reports_detail w (Torbox.addMagnet this magnet) "Torbox addMagnet error: " "error" r)
  /\ (forall this magnet,
        net w 0 (AllDebrid.upload_request this magnet) = Responds r ->
        reports_detail w (AllDebrid.addMagnet this magnet)
                       "AllDebrid addMagnet error: " "detail" r)
  /\ (forall this link,
        net w 0 (AllDebrid.unlock_request this link) = Responds r ->
        reports_detail w (AllDebrid.unrestrictLink this link)
                       "AllDebrid unrestrict error: " "detail" r).
Proof.
  intros Hok. split; [|split]; intros this arg Hr.
  - by apply (fail_with_reports w _ "Torbox addMagnet error: " "error" r).
  - by apply (fail_with_reports w _ "AllDebrid addMagnet error: " "detail" r).
  - by apply (fail_with_reports w _ "AllDebrid unrestrict error: " "detail" r).
Qed.

(** A run of it: Torbox answers 403 with [{ error: "BAD_TOKEN" }]; the
    caller gets ["Torbox addMagnet error: 403 - BAD_TOKEN"]. *)
Lemma failed_upload_run :
  fst (run (answers (fun _ => Responds (mkResponse 403
                       (Some (VObj [("error", VStr "BAD_TOKEN")])))))
           (Torbox.addMagnet (Torbox.new "tb-key") ("magnet:?xt=urn:btih:" +:+ sample_key)))
  = Throw (Error "Torbox addMagnet error: 403 - BAD_TOKEN").
Proof.
  set (r := mkResponse 403 (Some (VObj [("error", VStr "BAD_TOKEN")]))).
  pose proof (failed_upload_names_status_and_detail (answers (fun _ => Responds r)) r
                eq_refl) as (Htb & _).
  destruct (Htb (Torbox.new "tb-key") ("magnet:?xt=urn:btih:" +:+ sample_key) eq_refl)
    as (_ & _ & Htext & _).
  exact (Htext [("error", VStr "BAD_TOKEN")] "BAD_TOKEN" eq_refl eq_refl
               ltac:(discriminate)).
Defined.

(** [RealDebrid.deleteTorrent] makes its one request and resolves for
    every answer, whatever the status: that the torrent was not deleted
    (any status other than 204) is logged and not reported to the caller.
    Only a transport error is thrown on. *)
Theorem deleteTorrent_reports_no_status
    (w : world) (this : RealDebrid.t) (torrentId : string) :
  trace (snd (run w (RealDebrid.deleteTorrent this torrentId)))
  = [EvFetch (RealDebrid.delete_request this torrentId)]
  /\ fst (run w (RealDebrid.deleteTorrent this torrentId))
     = match net w 0 (RealDebrid.delete_request this torrentId) with
       | Rejects e => Throw e
       | Responds _ => Ok tt
       end.
Proof.
  unfold run, RealDebrid.deleteTorrent, bind, fetch. simpl.
  destruct (net w 0%nat _) as [e|r]; [done|].
  by destruct (negb (status r =? 204)).
Qed.

(** [Torbox.getTorrents] makes its one request. What it returns is never
    falsy: the [data] member of the body when that is truthy, an empty
    array otherwise. An answer outside 2xx throws an [Error] with the
    status, and the body [null] a [TypeError]. *)
Theorem torbox_getTorrents_never_falsy (w : world) (this : Torbox.t) :
  trace (snd (run w (Torbox.getTorrents this))) = [EvFetch (Torbox.mylist_request this)]
  /\ (forall v, fst (run w (Torbox.getTorrents this)) = Ok v -> truthy v = true)
  /\ (forall r props,
        net w 0 (Torbox.mylist_request this) = Responds r -> ok r = true ->
        json_body r = Some (VObj props) ->
        fst (run w (Torbox.getTorrents this))
        = Ok (if truthy (own props "data") then own props "data" else VArr []))
  /\ (forall r,
        net w 0 (Torbox.mylist_request this) = Responds r -> ok r = true ->
        json_body r = Some VNull ->
        fst (run w (Torbox.getTorrents this)) = Throw TypeError)
  /\ (forall r,
        net w 0 (Torbox.mylist_request this) = Responds r -> ok r = false ->
        fst (run w (Torbox.getTorrents this))
        = Throw (Error ("Failed to get torrents list from Torbox: "
                        +:+ num_to_string (status r)))).
Proof.
  split; [|split; [|split; [|split]]].
  - unfold run, Torbox.getTorrents. apply (fetch_then_silent_bare w _ _ init).
    intros r. destruct (negb (ok r)); [apply silent_throw|].
    apply silent_bind; [apply silent_json|]. intros data.
    apply silent_bind; [apply silent_lift|]. intros inner. apply silent_ret.
  - intros v. unfold run, Torbox.getTorrents, bind, fetch. simpl.
    destruct (net w 0%nat _) as [e|r]; [discriminate|].
    destruct (negb (ok r)); [discriminate|]. unfold json.
    destruct (json_body r) as [data|]; [|discriminate]. unfold ret, lift.
    destruct (get data "data") as [inner|e]; [|discriminate].
    intros [= <-]. unfold or_else. by destruct (truthy inner) eqn:Hinner.
  - intros r props Hr Hok Hbody.
    unfold run, Torbox.getTorrents, bind, fetch, json. simpl.
    by rewrite Hr, Hok, Hbody.
  - intros r Hr Hok Hbody.
    unfold run, Torbox.getTorrents, bind, fetch, json. simpl.
    by rewrite Hr, Hok, Hbody.
  - intros r Hr Hok.
    unfold run, Torbox.getTorrents, bind, fetch. simpl.
    by rewrite Hr, Hok.
Qed.
